(** * Stream sketches: reservoir sampling, Bloom filter, Flajolet-Martin

    A shallow embedding of [task1_4822285.py] (reservoir sampling),
    [task2_4822285.py] (Bloom filter) and [task3.py] (Flajolet-Martin
    cardinality estimator), and the properties of the three sketches.

    Python values are modelled as follows: [int] is [Z]; [str] is [string]
    (the UTF-8 bytes of the text, so [str.encode()] is the identity); a
    [list] is a [list] indexed the way Python indexes it (negative indices
    count from the end, anything else out of range raises [IndexError]); a
    call that may raise returns an [outcome]. *)

From Stdlib Require Import ZArith Ascii List Lia Reals Lra DecimalString.
From stdpp Require Import base list strings sorting.

Open Scope Z_scope.

(** ** Python prelude *)

Module Py.

(** The exceptions the three files can raise. *)
Inductive exn : Set :=
| IndexError
| ZeroDivisionError
| ValueError
| StatisticsError.

(** The result of a call: a returned value or a raised exception. *)
Inductive outcome (A : Type) : Type :=
| Returned (a : A)
| Raised (e : exn).
Arguments Returned {A} a.
Arguments Raised {A} e.

#[global] Instance exn_eq_dec : EqDecision exn.
Proof. solve_decision. Defined.

#[global] Instance outcome_ret : MRet outcome := fun A a => Returned a.
#[global] Instance outcome_bind : MBind outcome :=
  fun A B f m => match m with Returned a => f a | Raised e => Raised e end.
#[global] Instance outcome_fmap : FMap outcome :=
  fun A B f m => match m with Returned a => Returned (f a) | Raised e => Raised e end.

(** [l[i]] resolves its index first: a negative [i] counts from the end. *)
Definition norm_index (len : nat) (i : Z) : outcome nat :=
  let j := if i <? 0 then i + Z.of_nat len else i in
  if (0 <=? j) && (j <? Z.of_nat len) then Returned (Z.to_nat j)
  else Raised IndexError.

(** [l[i]] *)
Definition getitem {A} (l : list A) (i : Z) : outcome A :=
  j ← norm_index (length l) i;
  match l !! j with
  | Some x => Returned x
  | None => Raised IndexError
  end.

(** [l[i] = x] *)
Definition setitem {A} (l : list A) (i : Z) (x : A) : outcome (list A) :=
  j ← norm_index (length l) i;
  Returned (<[j:=x]> l).

(** [a % b]: the remainder takes the sign of [b], as [Z.modulo] does. *)
Definition mod_ (a b : Z) : outcome Z :=
  if b =? 0 then Raised ZeroDivisionError else Returned (a mod b).

(** [str(i)] for an [int]. *)
Definition str (i : Z) : string := NilZero.string_of_int (Z.to_int i).

(** [[x] * n]: empty for [n <= 0]. *)
Definition repeat_list {A} (x : A) (n : Z) : list A := replicate (Z.to_nat n) x.

(** [range(n)] *)
Definition range (n : Z) : list Z := map Z.of_nat (seq 0 (Z.to_nat n)).

(** [enumerate(l)] *)
Definition enumerate {A} (l : list A) : list (Z * A) :=
  zip (map Z.of_nat (seq 0 (length l))) l.

(** Binary digits of a positive number, most significant first. *)
Fixpoint bin_digits (p : positive) : string :=
  match p with
  | xH => "1"
  | xO q => bin_digits q +:+ "0"
  | xI q => bin_digits q +:+ "1"
  end.

(** [bin(x)] *)
Definition bin (x : Z) : string :=
  match x with
  | Z0 => "0b0"
  | Zpos p => "0b" +:+ bin_digits p
  | Zneg p => "-0b" +:+ bin_digits p
  end.

(** [s[n:]] for [n >= 0] *)
Fixpoint slice_from (n : nat) (s : string) : string :=
  match n, s with
  | O, _ => s
  | S m, EmptyString => EmptyString
  | S m, String _ t => slice_from m t
  end.

(** [s[::-1]] *)
Fixpoint reversed (s : string) : string :=
  match s with
  | EmptyString => EmptyString
  | String c t => reversed t +:+ String c EmptyString
  end.

(** [s.index(c)]: the position of the first [c], [ValueError] without one. *)
Fixpoint index (c : ascii) (s : string) : outcome Z :=
  match s with
  | EmptyString => Raised ValueError
  | String d t =>
      if Ascii.eqb d c then Returned 0
      else i ← index c t; Returned (i + 1)
  end.

(** [for x in xs: s = body(s, x)]: a loop over [xs] that threads the state
    [s] and stops at the first exception. *)
Fixpoint for_in {S X} (xs : list X) (body : S -> X -> outcome S) (s : S) : outcome S :=
  match xs with
  | [] => Returned s
  | x :: rest => s' ← body s x; for_in rest body s'
  end.

(** [try: body except e: handler] *)
Definition try_except {A} (body : outcome A) (e : exn) (handler : outcome A) : outcome A :=
  match body with
  | Returned a => Returned a
  | Raised e' => if decide (e' = e) then handler else Raised e'
  end.

(** A Python number: an [int], or a [float] read as the real number it
    stands for (rounding is not modelled). *)
Inductive num : Type :=
| Int (z : Z)
| Float (r : R).

Definition to_real (x : num) : R :=
  match x with
  | Int z => IZR z
  | Float r => r
  end.

(** [2 ** e]: an [int] for an [int] exponent [e >= 0], a [float] otherwise. *)
Definition pow2 (e : num) : num :=
  match e with
  | Int z => if 0 <=? z then Int (2 ^ z) else Float (Rpower 2 (IZR z))
  | Float r => Float (Rpower 2 r)
  end.

(** [statistics.median(data)] for a list of [int]: the middle item of the
    sorted data, or the mean of the two middle items (a [float]) when the
    length is even; [StatisticsError] on empty data. *)
Definition median (data : list Z) : outcome num :=
  let data := merge_sort Z.le data in
  let n := Z.of_nat (length data) in
  if n =? 0 then Raised StatisticsError
  else if n mod 2 =? 1 then
    x ← getitem data (n / 2); Returned (Int x)
  else
    let i := n / 2 in
    a ← getitem data (i - 1);
    b ← getitem data i;
    Returned (Float (IZR (a + b) / 2)).

End Py.
Export Py.

(** ** SHA-256 (FIPS 180-4), as [hashlib.sha256] computes it *)

Module Sha256.

Definition w32 (x : Z) : Z := x mod 2 ^ 32.
Definition add32 (a b : Z) : Z := w32 (a + b).
Definition rotr (n x : Z) : Z := Z.lor (Z.shiftr x n) (w32 (Z.shiftl x (32 - n))).
Definition shr (n x : Z) : Z := Z.shiftr x n.
Definition not32 (x : Z) : Z := Z.lxor x (2 ^ 32 - 1).

Definition Ch (x y z : Z) : Z := Z.lxor (Z.land x y) (Z.land (not32 x) z).
Definition Maj (x y z : Z) : Z :=
  Z.lxor (Z.lxor (Z.land x y) (Z.land x z)) (Z.land y z).
Definition Sigma0 (x : Z) : Z := Z.lxor (Z.lxor (rotr 2 x) (rotr 13 x)) (rotr 22 x).
Definition Sigma1 (x : Z) : Z := Z.lxor (Z.lxor (rotr 6 x) (rotr 11 x)) (rotr 25 x).
Definition sigma0 (x : Z) : Z := Z.lxor (Z.lxor (rotr 7 x) (rotr 18 x)) (shr 3 x).
Definition sigma1 (x : Z) : Z := Z.lxor (Z.lxor (rotr 17 x) (rotr 19 x)) (shr 10 x).

(** The first primes, by trial division. *)
Definition is_prime (n : Z) : bool :=
  forallb (fun d => negb (n mod d =? 0)) (map Z.of_nat (seq 2 (Z.to_nat n - 2))).

Definition primes_upto (n : nat) : list Z :=
  List.filter is_prime (map Z.of_nat (seq 2 (n - 1))).

(** The integer [e]-th root of [n], found bit by bit from bit [bits - 1] down. *)
Fixpoint root_bits (e n : Z) (bits : nat) (r : Z) : Z :=
  match bits with
  | O => r
  | S b =>
      let r' := r + 2 ^ Z.of_nat b in
      root_bits e n b (if r' ^ e <=? n then r' else r)
  end.

(** The first 32 bits of the fractional part of the [e]-th root of [p]. *)
Definition frac_root (e p : Z) : Z := w32 (root_bits e (p * 2 ^ (32 * e)) 40 0).

(** The round constants: from the cube roots of the first 64 primes. *)
Definition K : list Z := Eval vm_compute in map (frac_root 3) (primes_upto 311).

(** The initial hash value: from the square roots of the first 8 primes. *)
Definition H0 : list Z := Eval vm_compute in map (frac_root 2) (primes_upto 19).

(** The bytes of a message. *)
Fixpoint bytes_of (s : string) : list Z :=
  match s with
  | EmptyString => []
  | String c t => Z.of_N (N_of_ascii c) :: bytes_of t
  end.

(** Big-endian value of a list of digits in base [2 ^ w]. *)
Definition be_value (w : Z) (ds : list Z) : Z :=
  fold_left (fun acc d => acc * 2 ^ w + d) ds 0.

(** The [n] low base-[2^w] digits of [x], most significant first. *)
Fixpoint be_digits (w : Z) (n : nat) (x : Z) : list Z :=
  match n with
  | O => []
  | S m => be_digits w m (x / 2 ^ w) ++ [x mod 2 ^ w]
  end.

(** Padding: a 1 bit, zeros up to 56 mod 64 bytes, the bit length on 8 bytes. *)
Definition pad (msg : list Z) : list Z :=
  let len := Z.of_nat (length msg) in
  let zeros := Z.to_nat ((55 - len) mod 64) in
  msg ++ [0x80] ++ replicate zeros 0 ++ be_digits 8 8 (8 * len).

(** Cut a list into chunks of [n] items ([fuel] bounds the number of chunks). *)
Fixpoint chunks {A} (fuel n : nat) (l : list A) : list (list A) :=
  match fuel, l with
  | O, _ => []
  | _, [] => []
  | S f, _ => take n l :: chunks f n (drop n l)
  end.

Definition words_of_block (block : list Z) : list Z :=
  map (be_value 8) (chunks 16 4 block).

(** The message schedule, built backwards: [rev_w] holds W[t-1], W[t-2], ... *)
Fixpoint schedule (n : nat) (rev_w : list Z) : list Z :=
  match n with
  | O => rev rev_w
  | S m =>
      let w i := nth i rev_w 0 in
      let next := add32 (add32 (add32 (sigma1 (w 1%nat)) (w 6%nat)) (sigma0 (w 14%nat))) (w 15%nat) in
      schedule m (next :: rev_w)
  end.

Record regs : Set := Regs { ra : Z; rb : Z; rc : Z; rd : Z; re : Z; rf : Z; rg : Z; rh : Z }.

Definition round (s : regs) (kw : Z * Z) : regs :=
  let '(Regs a b c d e f g h) := s in
  let t1 := add32 (add32 (add32 (add32 h (Sigma1 e)) (Ch e f g)) (fst kw)) (snd kw) in
  let t2 := add32 (Sigma0 a) (Maj a b c) in
  Regs (add32 t1 t2) a b c (add32 d t1) e f g.

Definition regs_of (l : list Z) : regs :=
  let w i := nth i l 0 in
  Regs (w 0%nat) (w 1%nat) (w 2%nat) (w 3%nat) (w 4%nat) (w 5%nat) (w 6%nat) (w 7%nat).

Definition list_of (s : regs) : list Z :=
  let '(Regs a b c d e f g h) := s in [a; b; c; d; e; f; g; h].

Definition compress (h : list Z) (block : list Z) : list Z :=
  let w := schedule 48 (rev (words_of_block block)) in
  let s := fold_left round (combine K w) (regs_of h) in
  zip_with add32 h (list_of s).

(** The eight 32-bit words of the digest. *)
Definition digest_words (msg : string) : list Z :=
  let padded := pad (bytes_of msg) in
  fold_left compress (chunks (length padded) 64 padded) H0.

(** [int(hashlib.sha256(msg).hexdigest(), 16)]: the hexadecimal digest is the
    digest written in base 16, most significant digit first, and [int(_, 16)]
    reads it back, so the value is the digest as a big-endian number. *)
Definition sha256_int (msg : string) : Z := be_value 32 (digest_words msg).

End Sha256.

(** ** task1: reservoir sampling *)

Module Task1.
Section Reservoir.
Context {A : Type}.

(** [draws index] is what [random.randint(0, index)] returned at stream
    position [index] in the run at hand; the loop draws at most once per
    position. *)
Variable draws : Z -> Z.

(** The body of the loop over [enumerate(datastream())]. *)
Definition step (k : Z) (sample : list A) (it : Z * A) : outcome (list A) :=
  let '(index, transaction) := it in
  if index <? k then Returned (sample ++ [transaction])
  else
    let reservoir_index := draws index in
    if reservoir_index <? k then setitem sample reservoir_index transaction
    else Returned sample.

Definition reservoir_sampling (k : Z) (datastream : list A) : outcome (list A) :=
  for_in (enumerate datastream) (step k) [].

End Reservoir.

(** A draw function is one of [random.randint(0, index)] when every draw is
    in [0, index]. *)
Definition valid_draws (draws : Z -> Z) : Prop :=
  forall index, 0 <= index -> 0 <= draws index <= index.

(** The runs over a stream of [k + cnt] items: one draw for each of the
    positions [k], ..., [k + cnt - 1], the draw at position [i] any of
    [0], ..., [i]. All sequences are equally likely. *)
Fixpoint draw_sequences (k cnt : nat) : list (list Z) :=
  match cnt with
  | O => [[]]
  | S c =>
      ds ← draw_sequences k c;
      j ← range (Z.of_nat (k + c) + 1);
      [ds ++ [j]]
  end.

(** The draw function of a sequence of draws that starts at position [k]
    (below [k], where the loop does not draw, and past the sequence: 0). *)
Definition draws_of (k : nat) (ds : list Z) : Z -> Z :=
  fun index =>
    if index <? Z.of_nat k then 0
    else nth (Z.to_nat (index - Z.of_nat k)) ds 0.

(** Whether the sample a run returned has an item that satisfies [P]. *)
Definition holds {A} (P : A -> bool) (r : outcome (list A)) : bool :=
  match r with
  | Returned sample => existsb P sample
  | Raised _ => false
  end.

(** The number of runs over the stream [xs], with sample size [k], whose
    sample has an item that satisfies [P]. *)
Definition runs_with {A} (P : A -> bool) (k : nat) (xs : list A) : nat :=
  length (filter
    (fun ds => holds P (reservoir_sampling (draws_of k ds) (Z.of_nat k) xs) = true)
    (draw_sequences k (length xs - k))).

(** The number of runs whose sample holds the item that entered the stream
    at position [p]: the stream is run with each item paired with its
    position, which the loop never looks at. *)
Definition runs_holding {A} (k : nat) (xs : list A) (p : nat) : nat :=
  runs_with (fun it : Z * A => fst it =? Z.of_nat p) k (enumerate xs).

(** At most one position of [l] has an item that satisfies [P]. *)
Definition at_most_one {A} (P : A -> bool) (l : list A) : Prop :=
  forall (i j : nat) x y,
    l !! i = Some x -> l !! j = Some y -> P x = true -> P y = true -> i = j.

End Task1.

(** ** task2: Bloom filter *)

Module Task2.

(** The closure made for [index]: it keeps its own [index] (bound as a default
    argument) and the shared [size_bit_array]. *)
Definition hash_closure (size_bit_array index : Z) : string -> outcome Z :=
  fun x =>
    mod_ (Sha256.sha256_int
            ("hash_function_index_" +:+ str index +:+ "_bank_account_" +:+ x))
         size_bit_array.

Definition create_hash_functions (num_hash_functions size_bit_array : Z)
  : list (string -> outcome Z) :=
  fold_left (fun hash_functions i => hash_functions ++ [hash_closure size_bit_array i])
    (range num_hash_functions) [].

Definition add_to_bloom_filter (bloom_filter : list Z)
    (hash_functions : list (string -> outcome Z)) (bank_account : string)
  : outcome (list Z) :=
  for_in hash_functions
    (fun bloom_filter custom_hash =>
       i ← custom_hash bank_account; setitem bloom_filter i 1)
    bloom_filter.

Fixpoint check_bloom_filter (bloom_filter : list Z)
    (hash_functions : list (string -> outcome Z)) (bank_account : string)
  : outcome bool :=
  match hash_functions with
  | [] => Returned true
  | custom_hash :: rest =>
      i ← custom_hash bank_account;
      bit ← getitem bloom_filter i;
      if negb (bit =? 1) then Returned false
      else check_bloom_filter bloom_filter rest bank_account
  end.

(** Adding the accounts of a list one after the other, as the driver does. *)
Definition add_all (bloom_filter : list Z)
    (hash_functions : list (string -> outcome Z)) (accounts : list string)
  : outcome (list Z) :=
  for_in accounts (fun bf account => add_to_bloom_filter bf hash_functions account)
    bloom_filter.

(** A family of hash functions all of which return an index in [0, N). *)
Definition family_in_range (N : Z) (hfs : list (string -> outcome Z)) : Prop :=
  forall f key, f ∈ hfs -> exists v, f key = Returned v /\ 0 <= v < N.

End Task2.

(** ** task3: Flajolet-Martin *)

Module Task3.

Record FlajoletMartin : Set := { max_trailing_zeros : list Z }.

(** [FlajoletMartin.__init__] *)
Definition init (num_hashes : Z) : FlajoletMartin :=
  {| max_trailing_zeros := repeat_list 0 num_hashes |}.

Definition hash_function (item : string) (seed : Z) : Z :=
  let item_seeded := str seed +:+ "-" +:+ item in
  Sha256.sha256_int item_seeded.

Definition count_trailing_zeros (x : Z) : outcome Z :=
  let binary_representation := slice_from 2 (bin x) in
  try_except (index "1" (reversed binary_representation)) ValueError (Returned 0).

(** The body of the loop of [add]. *)
Definition add_step (item : string) (mtz : list Z) (i : Z) : outcome (list Z) :=
  let hash_value := hash_function item i in
  trailing_zeros_count ← count_trailing_zeros hash_value;
  current ← getitem mtz i;
  if trailing_zeros_count >? current then setitem mtz i trailing_zeros_count
  else Returned mtz.

Definition add (self : FlajoletMartin) (item : string) : outcome FlajoletMartin :=
  mtz ← for_in (range (Z.of_nat (length (max_trailing_zeros self))))
         (add_step item) (max_trailing_zeros self);
  Returned {| max_trailing_zeros := mtz |}.

Definition estimate_number (self : FlajoletMartin) : outcome (R * num) :=
  median_trailing_zeros ← median (max_trailing_zeros self);
  let estimated_number := (to_real (pow2 median_trailing_zeros) / 0.75351)%R in
  Returned (estimated_number, median_trailing_zeros).

(** Adding the items of a list one after the other. *)
Definition add_all (self : FlajoletMartin) (items : list string) : outcome FlajoletMartin :=
  for_in items add self.

(** The count [count_trailing_zeros] returns (it never raises, see
    [count_trailing_zeros_total]). *)
Definition trailing_zeros_of (x : Z) : Z :=
  match count_trailing_zeros x with
  | Returned c => c
  | Raised _ => 0
  end.

(** The largest trailing-zero count of the hashes, under [seed], of [items]
    (0 for no item). *)
Definition max_count (seed : Z) (items : list string) : Z :=
  fold_right (fun item acc => Z.max (trailing_zeros_of (hash_function item seed)) acc)
    0 items.

(** The number of trailing zero bits of a positive number. *)
Fixpoint trailing_zero_bits (p : positive) : Z :=
  match p with
  | xO q => trailing_zero_bits q + 1
  | _ => 0
  end.

(** The number of trailing zero bits of a number, read off its binary
    numeral; 0 for the number 0. It does not go through
    [count_trailing_zeros]. *)
Definition trailing_zeros (x : Z) : Z :=
  match x with
  | Z0 => 0
  | Zpos p => trailing_zero_bits p
  | Zneg p => trailing_zero_bits p
  end.

(** The largest number of trailing zero bits of [hash_function item seed]
    over [items] (0 for no item). *)
Definition max_trailing_zero_bits (seed : Z) (items : list string) : Z :=
  fold_right (fun item acc => Z.max (trailing_zeros (hash_function item seed)) acc)
    0 items.

End Task3.

(** ** task2: the measurements of the driver *)

Module Task2Main.
Import Task2.

(** A fresh bit array of size [N], the [k] hash functions, and every real
    account added (the body of the sweep over [k], up to the first loop). *)
Definition build (k N : Z) (real_bank_accounts : list string) : outcome (list Z) :=
  let bloom := repeat_list 0 N in
  let custom_hash_functions := create_hash_functions k N in
  add_all bloom custom_hash_functions real_bank_accounts.

(** The loop that counts the fake accounts the filter lets through. *)
Definition count_false_positives (bloom : list Z)
    (custom_hash_functions : list (string -> outcome Z))
    (fake_bank_accounts : list string) : outcome Z :=
  for_in fake_bank_accounts
    (fun false_positives fake_bank_account =>
       b ← check_bloom_filter bloom custom_hash_functions fake_bank_account;
       Returned (if b : bool then false_positives + 1 else false_positives))
    0.

(** [all(check_bloom_filter(bloom, hfs, acc) for acc in accounts)]: stops at
    the first account that is not found. *)
Fixpoint is_tpr_ok (bloom : list Z)
    (custom_hash_functions : list (string -> outcome Z))
    (accounts : list string) : outcome bool :=
  match accounts with
  | [] => Returned true
  | acc :: rest =>
      b ← check_bloom_filter bloom custom_hash_functions acc;
      if b : bool then is_tpr_ok bloom custom_hash_functions rest
      else Returned false
  end.

(** [np.sum(bloom)] on a list of [int]. *)
Definition np_sum (bloom : list Z) : Z := foldr Z.add 0 bloom.

End Task2Main.

(** ** task1: the slots of the sample *)

Module Task1Slots.
Import Task1.

(** Whether the sample a run returned has, in slot [j], an item that
    satisfies [P]. *)
Definition holds_at {A} (P : A -> bool) (j : nat) (r : outcome (list A)) : bool :=
  match r with
  | Returned sample =>
      match sample !! j with
      | Some x => P x
      | None => false
      end
  | Raised _ => false
  end.

(** The number of runs over [xs], with sample size [k], whose sample has in
    slot [j] an item that satisfies [P]. *)
Definition runs_with_at {A} (P : A -> bool) (j k : nat) (xs : list A) : nat :=
  length (filter
    (fun ds => holds_at P j (reservoir_sampling (draws_of k ds) (Z.of_nat k) xs) = true)
    (draw_sequences k (length xs - k))).

(** The number of runs whose sample has in slot [j] the item that entered
    the stream at position [p]. *)
Definition runs_holding_at {A} (k : nat) (xs : list A) (p j : nat) : nat :=
  runs_with_at (fun it : Z * A => fst it =? Z.of_nat p) j k (enumerate xs).

End Task1Slots.

(** ** The bits an account sets *)

Module BloomBits.

(** The positions the hash functions give for [key] (a function that raises
    gives none). *)
Definition hit_positions (hfs : list (string -> outcome Z)) (key : string) : list nat :=
  omap (fun f : string -> outcome Z =>
          match f key with
          | Returned v => Some (Z.to_nat v)
          | Raised _ => None
          end) hfs.

(** The bit array with the bits at [ps] set. *)
Definition set_bits (ps : list nat) (bf : list Z) : list Z :=
  foldl (fun b p => <[p:=1]> b) bf ps.

End BloomBits.

Example sha256_abc :
  Sha256.sha256_int "abc"
  = 0xba7816bf8f01cfea414140de5dae2223b00361a396177a9cb410ff61f20015ad.
Proof. vm_compute. reflexivity. Qed.

Example sha256_constants :
  length Sha256.K = 64%nat /\ length Sha256.H0 = 8%nat
  /\ Sha256.K !! 0%nat = Some 0x428a2f98 /\ Sha256.K !! 63%nat = Some 0xc67178f2
  /\ Sha256.H0 !! 0%nat = Some 0x6a09e667 /\ Sha256.H0 !! 7%nat = Some 0x5be0cd19.
Proof. vm_compute. done. Qed.

Example sha256_empty :
  Sha256.sha256_int ""
  = 0xe3b0c44298fc1c149afbf4c8996fb92427ae41e4649b934ca495991b7852b855.
Proof. vm_compute. reflexivity. Qed.

(** * Properties *)

(** ** The prelude *)

Section PreludeFacts.
Context {A : Type}.
Implicit Types (l : list A) (i : Z).

Lemma norm_index_in_range (len : nat) i :
  0 <= i < Z.of_nat len -> norm_index len i = Returned (Z.to_nat i).
Proof.
  intros Hi. unfold norm_index.
  destruct (Z.ltb_spec i 0); [lia|].
  destruct (Z.leb_spec 0 i); [|lia].
  destruct (Z.ltb_spec i (Z.of_nat len)); [|lia].
  reflexivity.
Qed.

Lemma setitem_in_range l i x :
  0 <= i < Z.of_nat (length l) -> setitem l i x = Returned (<[Z.to_nat i := x]> l).
Proof. intros Hi. unfold setitem. rewrite norm_index_in_range by done. reflexivity. Qed.

Lemma getitem_in_range l i x :
  0 <= i -> l !! Z.to_nat i = Some x -> getitem l i = Returned x.
Proof.
  intros Hi Hx. unfold getitem.
  apply lookup_lt_Some in Hx as Hlt.
  rewrite norm_index_in_range by lia. cbn. rewrite Hx. reflexivity.
Qed.

Lemma getitem_total l i :
  0 <= i < Z.of_nat (length l) -> exists x, l !! Z.to_nat i = Some x /\ getitem l i = Returned x.
Proof.
  intros Hi. destruct (lookup_lt_is_Some_2 l (Z.to_nat i)) as [x Hx]; [lia|].
  exists x. split; [done|]. apply getitem_in_range; [lia|done].
Qed.

Lemma norm_index_nil i : norm_index 0 i = Raised IndexError.
Proof.
  unfold norm_index. change (Z.of_nat 0) with 0. rewrite Z.add_0_r.
  destruct (i <? 0) eqn:Hneg.
  - apply Z.ltb_lt in Hneg. destruct (Z.leb_spec 0 i); [lia|done].
  - by rewrite Hneg, andb_false_r.
Qed.

Lemma setitem_nil i x : setitem (@nil A) i x = Raised IndexError.
Proof. unfold setitem. cbn [length]. by rewrite norm_index_nil. Qed.

Lemma getitem_nil i : getitem (@nil A) i = Raised IndexError.
Proof. unfold getitem. cbn [length]. by rewrite norm_index_nil. Qed.

Lemma fold_left_snoc_map {B} (f : B -> A) (xs : list B) (acc : list A) :
  fold_left (fun acc x => acc ++ [f x]) xs acc = acc ++ map f xs.
Proof.
  revert acc. induction xs as [|x xs IH]; intros acc; cbn.
  - by rewrite app_nil_r.
  - rewrite IH. by rewrite <- app_assoc.
Qed.

Lemma for_in_app {S X} (xs ys : list X) (body : S -> X -> outcome S) (s : S) :
  for_in (xs ++ ys) body s = s' ← for_in xs body s; for_in ys body s'.
Proof.
  revert s. induction xs as [|x xs IH]; intros s; cbn; [done|].
  destruct (body s x) as [s'|e]; cbn; [apply IH|done].
Qed.

Lemma for_in_singleton {S X} (x : X) (body : S -> X -> outcome S) (s : S) :
  for_in [x] body s = body s x.
Proof. cbn. by destruct (body s x). Qed.

End PreludeFacts.

Lemma range_length (n : Z) : length (range n) = Z.to_nat n.
Proof. unfold range. by rewrite length_map, length_seq. Qed.

Lemma range_lookup (n : Z) (i : nat) :
  (i < Z.to_nat n)%nat -> range n !! i = Some (Z.of_nat i).
Proof.
  intros Hi. unfold range. rewrite list_lookup_fmap.
  rewrite lookup_seq_lt by done. reflexivity.
Qed.

Lemma range_nonpos (n : Z) : n <= 0 -> range n = [].
Proof. intros Hn. unfold range. replace (Z.to_nat n) with 0%nat by lia. done. Qed.

Lemma range_succ (n : Z) : 0 <= n -> range (n + 1) = range n ++ [n].
Proof.
  intros Hn. unfold range.
  replace (Z.to_nat (n + 1)) with (S (Z.to_nat n)) by lia.
  rewrite seq_S, map_app. cbn. by rewrite Z2Nat.id.
Qed.

(** ** task2: the Bloom filter *)

Section BloomFacts.
Import Task2.

Lemma create_hash_functions_map (h N : Z) :
  create_hash_functions h N = map (hash_closure N) (range h).
Proof. unfold create_hash_functions. by rewrite fold_left_snoc_map. Qed.

Lemma hash_closure_in_range (N index : Z) (key : string) :
  1 <= N ->
  exists v, hash_closure N index key = Returned v /\ 0 <= v < N.
Proof.
  intros HN. unfold hash_closure, mod_.
  destruct (Z.eqb_spec N 0); [lia|].
  eexists. split; [reflexivity|]. apply Z.mod_pos_bound. lia.
Qed.

Lemma create_hash_functions_in_range (h N : Z) :
  1 <= N -> family_in_range N (create_hash_functions h N).
Proof.
  intros HN f key Hf. rewrite create_hash_functions_map in Hf.
  apply list_elem_of_fmap in Hf as (i & -> & _).
  by apply hash_closure_in_range.
Qed.

Lemma family_in_range_cons N f hfs :
  family_in_range N (f :: hfs) ->
  (forall key, exists v, f key = Returned v /\ 0 <= v < N) /\ family_in_range N hfs.
Proof.
  intros H. split.
  - intros key. apply H. left.
  - intros g key Hg. apply H. by right.
Qed.

(** Adding an account sets the bit of each hash function, keeps the bits
    that were set and the size of the array, and does not raise. *)
Lemma add_to_bloom_filter_spec (N : Z) hfs (bf : list Z) (key : string) :
  family_in_range N hfs -> Z.of_nat (length bf) = N ->
  exists bf',
    add_to_bloom_filter bf hfs key = Returned bf'
    /\ length bf' = length bf
    /\ (forall j, bf !! j = Some 1 -> bf' !! j = Some 1)
    /\ (forall f, f ∈ hfs ->
          exists v, f key = Returned v /\ 0 <= v /\ bf' !! Z.to_nat v = Some 1).
Proof.
  revert bf. induction hfs as [|f hfs IH]; intros bf Hfam Hlen.
  - exists bf. cbn. repeat split; try done. intros f Hf. inversion Hf.
  - apply family_in_range_cons in Hfam as [Hf Hfam].
    destruct (Hf key) as (v & Hv & Hrange).
    unfold add_to_bloom_filter. cbn. rewrite Hv. cbn.
    rewrite setitem_in_range by lia. cbn.
    destruct (IH (<[Z.to_nat v := 1]> bf) Hfam) as (bf' & Hadd & Hlen' & Hkeep & Hset).
    { rewrite length_insert. done. }
    exists bf'. split; [exact Hadd|]. split; [by rewrite Hlen', length_insert|].
    split.
    + intros j Hj. apply Hkeep.
      destruct (decide (Z.to_nat v = j)) as [->|Hne].
      * apply list_lookup_insert_eq. by apply lookup_lt_Some in Hj.
      * by rewrite list_lookup_insert_ne.
    + intros g Hg. apply elem_of_cons in Hg as [->|Hg]; [|by apply Hset].
      exists v. split; [done|]. split; [lia|].
      apply Hkeep. apply list_lookup_insert_eq. lia.
Qed.

Lemma add_all_spec (N : Z) hfs (bf : list Z) (keys : list string) :
  family_in_range N hfs -> Z.of_nat (length bf) = N ->
  exists bf',
    add_all bf hfs keys = Returned bf'
    /\ length bf' = length bf
    /\ (forall j, bf !! j = Some 1 -> bf' !! j = Some 1)
    /\ (forall k f, k ∈ keys -> f ∈ hfs ->
          exists v, f k = Returned v /\ 0 <= v /\ bf' !! Z.to_nat v = Some 1).
Proof.
  intros Hfam. revert bf. induction keys as [|key keys IH]; intros bf Hlen.
  - exists bf. cbn. repeat split; try done. intros k f Hk. inversion Hk.
  - destruct (add_to_bloom_filter_spec N hfs bf key Hfam Hlen)
      as (bf1 & Hadd & Hlen1 & Hkeep1 & Hset1).
    destruct (IH bf1) as (bf' & Hall & Hlen' & Hkeep & Hset); [lia|].
    exists bf'. unfold add_all in *. cbn. rewrite Hadd. cbn.
    split; [exact Hall|]. split; [lia|]. split; [by auto|].
    intros k f Hk Hf. apply elem_of_cons in Hk as [->|Hk]; [|by apply Hset].
    destruct (Hset1 f Hf) as (v & Hv & Hv0 & Hbit).
    exists v. auto.
Qed.

Lemma check_bloom_filter_true hfs (bf : list Z) (key : string) :
  (forall f, f ∈ hfs ->
     exists v, f key = Returned v /\ 0 <= v /\ bf !! Z.to_nat v = Some 1) ->
  check_bloom_filter bf hfs key = Returned true.
Proof.
  induction hfs as [|f hfs IH]; intros H; cbn; [done|].
  destruct (H f) as (v & Hv & Hv0 & Hbit); [left|].
  rewrite Hv. cbn. rewrite (getitem_in_range _ _ 1) by done. cbn.
  apply IH. intros g Hg. apply H. by right.
Qed.

Lemma check_bloom_filter_total (N : Z) hfs (bf : list Z) (key : string) :
  family_in_range N hfs -> Z.of_nat (length bf) = N ->
  exists b, check_bloom_filter bf hfs key = Returned b.
Proof.
  intros Hfam Hlen. induction hfs as [|f hfs IH]; cbn; [by eexists|].
  apply family_in_range_cons in Hfam as [Hf Hfam].
  destruct (Hf key) as (v & Hv & Hrange). rewrite Hv. cbn.
  destruct (getitem_total bf v) as (x & _ & Hx); [lia|]. rewrite Hx. cbn.
  destruct (negb (x =? 1)); [by eexists|]. by apply IH.
Qed.

(** C1. No false negatives: on a bit array of size [N >= 1] with the [h >= 1]
    hash functions of [create_hash_functions h N], adding any list of accounts
    in any order succeeds, and every account of the list then checks as
    present. *)
Theorem bloom_no_false_negatives (N h : Z) (bf : list Z) (keys : list string) (k : string) :
  1 <= N -> 1 <= h -> Z.of_nat (length bf) = N -> In k keys ->
  exists bf',
    add_all bf (create_hash_functions h N) keys = Returned bf'
    /\ check_bloom_filter bf' (create_hash_functions h N) k = Returned true.
Proof.
  intros HN Hh Hlen Hk. apply list_elem_of_In in Hk.
  destruct (add_all_spec N (create_hash_functions h N) bf keys)
    as (bf' & Hall & _ & _ & Hset); [by apply create_hash_functions_in_range|done|].
  exists bf'. split; [exact Hall|].
  apply check_bloom_filter_true. intros f Hf. by apply Hset.
Qed.

Lemma bloom_no_false_negatives_witness :
  exists bf',
    add_all (repeat_list 0 8) (create_hash_functions 2 8) ["real1"; "real2"; "real3"]
      = Returned bf'
    /\ check_bloom_filter bf' (create_hash_functions 2 8) "real2" = Returned true.
Proof.
  apply (bloom_no_false_negatives 8 2 (repeat_list 0 8) ["real1"; "real2"; "real3"] "real2");
    [lia | lia | reflexivity | simpl; auto].
Defined.

(** C7. For [N >= 1] and [h >= 1], [create_hash_functions h N] returns [h]
    functions; the one at position [i] maps a key to the SHA-256 number of the
    text salted with [i], reduced modulo [N] (so its output depends on the
    key and [i] alone and lies in [0, N)); on a bit array of size [N],
    [add_to_bloom_filter] and [check_bloom_filter] then never raise. *)
Theorem hash_family_deterministic_in_range (N h : Z) :
  1 <= N -> 1 <= h ->
  let hfs := create_hash_functions h N in
  length hfs = Z.to_nat h
  /\ (forall (i : nat) f key, hfs !! i = Some f ->
        let v := Sha256.sha256_int
                   ("hash_function_index_" +:+ str (Z.of_nat i) +:+ "_bank_account_" +:+ key)
                 mod N in
        f key = Returned v /\ 0 <= v < N)
  /\ (forall (bf : list Z) key, Z.of_nat (length bf) = N ->
        (exists bf', add_to_bloom_filter bf hfs key = Returned bf'
                     /\ length bf' = length bf)
        /\ (exists b, check_bloom_filter bf hfs key = Returned b)).
Proof.
  intros HN Hh hfs. subst hfs. split; [|split].
  - by rewrite create_hash_functions_map, length_map, range_length.
  - intros i f key Hf v. rewrite create_hash_functions_map in Hf.
    rewrite list_lookup_fmap in Hf.
    destruct (range h !! i) as [j|] eqn:Hj; [|done].
    assert (j = Z.of_nat i) as ->.
    { apply lookup_lt_Some in Hj as Hlt. rewrite range_length in Hlt.
      rewrite range_lookup in Hj by done. congruence. }
    cbn in Hf. injection Hf as <-. subst v. unfold hash_closure, mod_.
    destruct (Z.eqb_spec N 0); [lia|].
    split; [done|]. apply Z.mod_pos_bound. lia.
  - intros bf key Hlen. split.
    + destruct (add_to_bloom_filter_spec N (create_hash_functions h N) bf key)
        as (bf' & Hadd & Hlen' & _); [by apply create_hash_functions_in_range|done|].
      by exists bf'.
    + by apply (check_bloom_filter_total N); [apply create_hash_functions_in_range|].
Qed.

Lemma hash_family_deterministic_in_range_witness :
  let hfs := create_hash_functions 3 10 in
  length hfs = Z.to_nat 3
  /\ (forall (i : nat) f key, hfs !! i = Some f ->
        let v := Sha256.sha256_int
                   ("hash_function_index_" +:+ str (Z.of_nat i) +:+ "_bank_account_" +:+ key)
                 mod 10 in
        f key = Returned v /\ 0 <= v < 10)
  /\ (forall (bf : list Z) key, Z.of_nat (length bf) = 10 ->
        (exists bf', add_to_bloom_filter bf hfs key = Returned bf'
                     /\ length bf' = length bf)
        /\ (exists b, check_bloom_filter bf hfs key = Returned b)).
Proof. apply (hash_family_deterministic_in_range 10 3); lia. Defined.

(** C10. With no hash function (what [create_hash_functions 0 N] returns),
    [check_bloom_filter] answers [True] for every key and every bit array,
    and [add_to_bloom_filter] returns the bit array unchanged. *)
Theorem empty_family_vacuous_membership (N : Z) (bf : list Z) (key : string) :
  create_hash_functions 0 N = []
  /\ check_bloom_filter bf (create_hash_functions 0 N) key = Returned true
  /\ add_to_bloom_filter bf (create_hash_functions 0 N) key = Returned bf.
Proof. repeat split. Qed.

End BloomFacts.

(** ** task3: the Flajolet-Martin estimator *)

Section TrailingZeros.
Import Task3.

Lemma append_nil_l (t : string) : "" +:+ t = t.
Proof. reflexivity. Qed.

Lemma append_cons (c : ascii) (s t : string) : String c s +:+ t = String c (s +:+ t).
Proof. reflexivity. Qed.

Lemma append_nil_r (s : string) : s +:+ "" = s.
Proof. induction s as [|c s IH]; [done|]. by rewrite append_cons, IH. Qed.

Lemma append_assoc (s t u : string) : (s +:+ t) +:+ u = s +:+ (t +:+ u).
Proof. induction s as [|c s IH]; [done|]. by rewrite !append_cons, IH. Qed.

Lemma reversed_app (s t : string) : reversed (s +:+ t) = reversed t +:+ reversed s.
Proof.
  induction s as [|c s IH].
  - cbn. by rewrite append_nil_l, append_nil_r.
  - rewrite append_cons. cbn. by rewrite IH, append_assoc.
Qed.

Lemma index_app_found (c : ascii) (s t : string) (i : Z) :
  index c s = Returned i -> index c (s +:+ t) = Returned i.
Proof.
  revert i. induction s as [|d s IH]; intros i; [done|].
  rewrite append_cons. cbn.
  destruct (Ascii.eqb d c); [done|].
  destruct (index c s) as [j|e]; cbn; [|done].
  intros [= <-]. by rewrite (IH j).
Qed.

Lemma index_reversed_bin_digits (p : positive) :
  index "1" (reversed (bin_digits p)) = Returned (trailing_zero_bits p).
Proof.
  induction p as [q IH|q IH|]; cbn [bin_digits trailing_zero_bits]; [| |done].
  - by rewrite reversed_app.
  - rewrite reversed_app. change (reversed "0") with "0". 
    rewrite append_cons, append_nil_l. cbn. by rewrite IH.
Qed.

Lemma trailing_zero_bits_nonneg (p : positive) : 0 <= trailing_zero_bits p.
Proof. induction p; cbn; lia. Qed.

Lemma trailing_zero_bits_lowest_set (p : positive) :
  Z.testbit (Zpos p) (trailing_zero_bits p) = true
  /\ forall j, 0 <= j < trailing_zero_bits p -> Z.testbit (Zpos p) j = false.
Proof.
  induction p as [q IH|q IH|]; cbn [trailing_zero_bits].
  - split; [done|]. intros j Hj; lia.
  - destruct IH as [IH1 IH2].
    pose proof (trailing_zero_bits_nonneg q) as Hq.
    rewrite Pos2Z.inj_xO. split.
    + rewrite Z.add_1_r. by rewrite Z.testbit_even_succ.
    + intros j Hj. destruct (decide (j = 0)) as [->|Hne].
      * apply Z.testbit_even_0.
      * replace j with (Z.succ (j - 1)) by lia.
        rewrite Z.testbit_even_succ by lia. apply IH2. lia.
  - split; [done|]. intros j Hj; lia.
Qed.

Lemma count_trailing_zeros_pos (p : positive) :
  count_trailing_zeros (Zpos p) = Returned (trailing_zero_bits p).
Proof.
  unfold count_trailing_zeros, bin.
  rewrite !append_cons, append_nil_l. cbn [slice_from].
  by rewrite index_reversed_bin_digits.
Qed.

Lemma count_trailing_zeros_neg (p : positive) :
  count_trailing_zeros (Zneg p) = Returned (trailing_zero_bits p).
Proof.
  unfold count_trailing_zeros, bin.
  rewrite !append_cons, append_nil_l. cbn [slice_from].
  change (String "b" (bin_digits p)) with ("b" +:+ bin_digits p).
  rewrite reversed_app.
  by rewrite (index_app_found _ _ _ _ (index_reversed_bin_digits p)).
Qed.

Lemma count_trailing_zeros_total (x : Z) :
  count_trailing_zeros x = Returned (trailing_zeros_of x).
Proof.
  unfold trailing_zeros_of. destruct x as [|p|p].
  - reflexivity.
  - by rewrite count_trailing_zeros_pos.
  - by rewrite count_trailing_zeros_neg.
Qed.

Lemma trailing_zeros_of_nonneg (x : Z) : 0 <= trailing_zeros_of x.
Proof.
  unfold trailing_zeros_of. destruct x as [|p|p].
  - vm_compute. discriminate.
  - rewrite count_trailing_zeros_pos. apply trailing_zero_bits_nonneg.
  - rewrite count_trailing_zeros_neg. apply trailing_zero_bits_nonneg.
Qed.

(** C8. For [x >= 0], [count_trailing_zeros x] returns the position of the
    lowest set bit of [x] (the bit there is set and every lower bit is
    clear), and 0 for [x = 0]. *)
Theorem count_trailing_zeros_lowest_set_bit (x : Z) :
  0 <= x ->
  exists c,
    count_trailing_zeros x = Returned c
    /\ 0 <= c
    /\ (x = 0 -> c = 0)
    /\ (0 < x -> Z.testbit x c = true
                 /\ forall j, 0 <= j < c -> Z.testbit x j = false).
Proof.
  intros Hx. destruct x as [|p|p]; [| |lia].
  - exists 0. repeat split; done.
  - exists (trailing_zero_bits p). split; [apply count_trailing_zeros_pos|].
    split; [apply trailing_zero_bits_nonneg|]. split; [done|].
    intros _. apply trailing_zero_bits_lowest_set.
Qed.

Lemma count_trailing_zeros_lowest_set_bit_witness :
  exists c,
    count_trailing_zeros 40 = Returned c
    /\ 0 <= c
    /\ (40 = 0 -> c = 0)
    /\ (0 < 40 -> Z.testbit 40 c = true
                  /\ forall j, 0 <= j < c -> Z.testbit 40 j = false).
Proof. apply (count_trailing_zeros_lowest_set_bit 40). lia. Defined.

End TrailingZeros.

Example count_trailing_zeros_40 : Task3.count_trailing_zeros 40 = Returned 3.
Proof. reflexivity. Qed.

Example count_trailing_zeros_0 : Task3.count_trailing_zeros 0 = Returned 0.
Proof. reflexivity. Qed.

(** ** SHA-256: the range of the digest *)

Section DigestFacts.
Import Sha256.

Lemma compress_words (h block : list Z) :
  length h = 8%nat ->
  length (compress h block) = 8%nat
  /\ Forall (fun w => 0 <= w < 2 ^ 32) (compress h block).
Proof.
  intros Hlen. unfold compress.
  set (s := fold_left round _ _). split.
  - rewrite length_zip_with, Hlen. by destruct s.
  - apply Forall_lookup. intros i w Hw.
    apply lookup_zip_with_Some in Hw as (a & b & -> & _ & _).
    unfold add32, w32. apply Z.mod_pos_bound. lia.
Qed.

Lemma digest_words_range (msg : string) :
  length (digest_words msg) = 8%nat
  /\ Forall (fun w => 0 <= w < 2 ^ 32) (digest_words msg).
Proof.
  unfold digest_words. generalize (chunks (length (pad (bytes_of msg))) 64 (pad (bytes_of msg))).
  intros blocks.
  assert (HH : length H0 = 8%nat /\ Forall (fun w => 0 <= w < 2 ^ 32) H0).
  { split; [reflexivity|]. unfold H0. repeat (apply Forall_cons; split; [lia|]). apply Forall_nil. done. }
  revert HH. generalize H0. induction blocks as [|b blocks IH]; intros h [Hlen Hrange]; [done|].
  cbn [fold_left]. apply IH. by apply compress_words.
Qed.

Lemma be_value_bound (w : Z) (ds : list Z) :
  0 <= w -> Forall (fun d => 0 <= d < 2 ^ w) ds ->
  0 <= be_value w ds < 2 ^ (w * Z.of_nat (length ds)).
Proof.
  intros Hw Hds. unfold be_value.
  assert (Hgen : forall (acc : Z) (m : nat),
            0 <= acc < 2 ^ (w * Z.of_nat m) ->
            0 <= fold_left (fun acc d => acc * 2 ^ w + d) ds acc
              < 2 ^ (w * Z.of_nat (m + length ds))).
  { induction Hds as [|d ds Hd _ IH]; intros acc m Hacc.
    - cbn [fold_left length]. by rewrite Nat.add_0_r.
    - cbn [fold_left length]. replace (m + S (length ds))%nat with (S m + length ds)%nat by lia.
      apply IH.
      replace (w * Z.of_nat (S m)) with (w * Z.of_nat m + w) by lia.
      rewrite Z.pow_add_r by lia.
      assert (0 < 2 ^ w) by (apply Z.pow_pos_nonneg; lia). nia. }
  apply (Hgen 0 0%nat). rewrite Z.mul_0_r. cbn. lia.
Qed.

Lemma sha256_int_range (msg : string) : 0 <= sha256_int msg < 2 ^ 256.
Proof.
  destruct (digest_words_range msg) as [Hlen Hrange].
  pose proof (be_value_bound 32 (digest_words msg) ltac:(lia) Hrange) as H.
  rewrite Hlen in H. exact H.
Qed.

End DigestFacts.

Section EstimatorFacts.
Import Task3.

Lemma max_count_nonneg (seed : Z) (items : list string) : 0 <= max_count seed items.
Proof. unfold max_count. induction items as [|item items IH]; cbn; lia. Qed.

Lemma max_count_cons (seed : Z) (item : string) (items : list string) :
  max_count seed (item :: items)
  = Z.max (trailing_zeros_of (hash_function item seed)) (max_count seed items).
Proof. reflexivity. Qed.

Lemma max_count_ge (seed : Z) (items : list string) (item : string) :
  item ∈ items -> trailing_zeros_of (hash_function item seed) <= max_count seed items.
Proof.
  induction items as [|x items IH]; intros Hin; [inversion Hin|].
  rewrite max_count_cons.
  apply elem_of_cons in Hin as [->|Hin]; [lia|].
  specialize (IH Hin). lia.
Qed.

(** The loop of [add] after its first [n] rounds. *)
Lemma add_loop (item : string) (mtz : list Z) (n : nat) :
  (n <= length mtz)%nat ->
  exists mtz',
    for_in (range (Z.of_nat n)) (add_step item) mtz = Returned mtz'
    /\ length mtz' = length mtz
    /\ forall (i : nat) c, mtz !! i = Some c ->
         mtz' !! i = Some (if decide (i < n)%nat
                           then Z.max c (trailing_zeros_of (hash_function item (Z.of_nat i)))
                           else c).
Proof.
  induction n as [|n IH]; intros Hn.
  - exists mtz. repeat split; try done.
  - destruct IH as (mtz1 & Hloop & Hlen1 & Hget1); [lia|].
    rewrite Nat2Z.inj_succ, <- Z.add_1_r, range_succ by lia.
    rewrite for_in_app, Hloop. cbn.
    destruct (lookup_lt_is_Some_2 mtz n) as [c Hc]; [lia|].
    pose proof (Hget1 n c Hc) as Hc1. rewrite decide_False in Hc1 by lia.
    unfold add_step at 1. rewrite count_trailing_zeros_total. cbn.
    rewrite (getitem_in_range mtz1 (Z.of_nat n) c) by (rewrite ?Nat2Z.id; done || lia).
    cbn. set (t := trailing_zeros_of (hash_function item (Z.of_nat n))).
    destruct (Z.gtb_spec t c) as [Hgt|Hle].
    + rewrite setitem_in_range by lia. rewrite Nat2Z.id.
      eexists. split; [reflexivity|]. split; [by rewrite length_insert|].
      intros i d Hd. destruct (decide (i = n)) as [->|Hne].
      * rewrite list_lookup_insert_eq by lia. rewrite decide_True by lia.
        assert (d = c) as -> by congruence. f_equal. subst t. lia.
      * rewrite list_lookup_insert_ne by done. rewrite (Hget1 i d Hd).
        f_equal. repeat case_decide; done || lia.
    + exists mtz1. split; [reflexivity|]. split; [done|].
      intros i d Hd. destruct (decide (i = n)) as [->|Hne].
      * rewrite decide_True by lia.
        assert (d = c) as -> by congruence. rewrite Hc1. f_equal. subst t. lia.
      * rewrite (Hget1 i d Hd). f_equal. repeat case_decide; done || lia.
Qed.

(** [add] never raises; each counter becomes the larger of its value and
    the item's trailing-zero count under the counter's seed. *)
Lemma add_spec (fm : FlajoletMartin) (item : string) :
  exists fm',
    add fm item = Returned fm'
    /\ length (max_trailing_zeros fm') = length (max_trailing_zeros fm)
    /\ forall (i : nat) c, max_trailing_zeros fm !! i = Some c ->
         max_trailing_zeros fm' !! i
         = Some (Z.max c (trailing_zeros_of (hash_function item (Z.of_nat i)))).
Proof.
  destruct (add_loop item (max_trailing_zeros fm) (length (max_trailing_zeros fm)))
    as (mtz' & Hloop & Hlen & Hget); [done|].
  exists {| max_trailing_zeros := mtz' |}. unfold add. rewrite Hloop. cbn.
  split; [done|]. split; [done|].
  intros i c Hc. rewrite (Hget i c Hc).
  apply lookup_lt_Some in Hc. by rewrite decide_True.
Qed.

Lemma add_all_spec_fm (items : list string) (fm : FlajoletMartin) :
  exists fm',
    Task3.add_all fm items = Returned fm'
    /\ length (max_trailing_zeros fm') = length (max_trailing_zeros fm)
    /\ forall (i : nat) c, max_trailing_zeros fm !! i = Some c -> 0 <= c ->
         max_trailing_zeros fm' !! i = Some (Z.max c (max_count (Z.of_nat i) items)).
Proof.
  revert fm. induction items as [|item items IH]; intros fm.
  - exists fm. repeat split; try done. intros i c Hc Hc0. rewrite Hc. f_equal.
    cbn. lia.
  - destruct (add_spec fm item) as (fm1 & Hadd & Hlen1 & Hget1).
    destruct (IH fm1) as (fm' & Hall & Hlen' & Hget').
    exists fm'. unfold Task3.add_all in *. cbn. rewrite Hadd. cbn.
    split; [done|]. split; [congruence|].
    intros i c Hc Hc0. rewrite (Hget' i _ (Hget1 i c Hc)) by lia.
    f_equal. unfold max_count. lia.
Qed.

Lemma init_lookup (h : Z) (i : nat) :
  (i < Z.to_nat h)%nat -> max_trailing_zeros (init h) !! i = Some 0.
Proof. intros Hi. cbn. unfold repeat_list. by apply lookup_replicate_2. Qed.

Lemma init_length (h : Z) : length (max_trailing_zeros (init h)) = Z.to_nat h.
Proof. cbn. unfold repeat_list. apply length_replicate. Qed.

Lemma trailing_zeros_of_spec (x : Z) : trailing_zeros_of x = trailing_zeros x.
Proof.
  unfold trailing_zeros_of. destruct x as [|p|p].
  - reflexivity.
  - by rewrite count_trailing_zeros_pos.
  - by rewrite count_trailing_zeros_neg.
Qed.

Lemma max_count_spec (seed : Z) (items : list string) :
  max_count seed items = max_trailing_zero_bits seed items.
Proof.
  induction items as [|item items IH]; [done|].
  rewrite max_count_cons, IH, trailing_zeros_of_spec. done.
Qed.

(** [trailing_zeros] is the position of the lowest set bit. *)
Lemma trailing_zeros_lowest_set (x : Z) :
  0 < x ->
  0 <= trailing_zeros x
  /\ Z.testbit x (trailing_zeros x) = true
  /\ forall j, 0 <= j < trailing_zeros x -> Z.testbit x j = false.
Proof.
  intros Hx. destruct x as [|p|p]; [lia| |lia]. cbn [trailing_zeros].
  split; [apply trailing_zero_bits_nonneg|]. apply trailing_zero_bits_lowest_set.
Qed.

(** C4. From a fresh estimator with [h >= 1] counters, adding any list of
    items (so: after any prefix of a longer list) succeeds, and counter [i]
    is then the largest number of trailing zero bits of
    [hash_function item i] over the items added, 0 for none. The number of
    trailing zero bits, [trailing_zeros], is the one of the binary numeral,
    not the model's [count_trailing_zeros]: every hash value is
    non-negative, the count is 0 for the value 0, and for a positive value
    it is the position of the lowest set bit. One more [add] lowers no
    counter, and changes nothing when its item was added before. *)
Theorem fm_counters_running_maximum (h : Z) (items : list string) :
  1 <= h ->
  (forall item seed,
     let x := hash_function item seed in
     0 <= x
     /\ (x = 0 -> trailing_zeros x = 0)
     /\ (0 < x ->
         0 <= trailing_zeros x
         /\ Z.testbit x (trailing_zeros x) = true
         /\ forall j, 0 <= j < trailing_zeros x -> Z.testbit x j = false))
  /\ exists fm,
       Task3.add_all (init h) items = Returned fm
       /\ length (max_trailing_zeros fm) = Z.to_nat h
       /\ (forall i : nat, (i < Z.to_nat h)%nat ->
             max_trailing_zeros fm !! i
             = Some (max_trailing_zero_bits (Z.of_nat i) items))
       /\ forall item,
            exists fm',
              add fm item = Returned fm'
              /\ (forall (i : nat) c, max_trailing_zeros fm !! i = Some c ->
                    exists c', max_trailing_zeros fm' !! i = Some c' /\ c <= c')
              /\ (In item items -> fm' = fm).
Proof.
  intros Hh. split.
  { intros item seed x. subst x.
    pose proof (sha256_int_range (str seed +:+ "-" +:+ item)) as Hrange.
    unfold hash_function. split; [lia|]. split.
    - by intros ->.
    - apply trailing_zeros_lowest_set. }
  destruct (add_all_spec_fm items (init h)) as (fm & Hall & Hlen & Hget).
  rewrite init_length in Hlen.
  assert (Hcount : forall i : nat, (i < Z.to_nat h)%nat ->
            max_trailing_zeros fm !! i = Some (max_count (Z.of_nat i) items)).
  { intros i Hi. rewrite (Hget i 0 (init_lookup h i Hi)) by lia.
    f_equal. pose proof (max_count_nonneg (Z.of_nat i) items). lia. }
  exists fm. split; [done|]. split; [done|]. split.
  { intros i Hi. rewrite <- max_count_spec. by apply Hcount. }
  intros item. destruct (add_spec fm item) as (fm' & Hadd & Hlen' & Hget').
  exists fm'. split; [done|]. split.
  - intros i c Hc. eexists. split; [by apply Hget'|]. lia.
  - intros Hin. apply list_elem_of_In in Hin.
    destruct fm as [mtz], fm' as [mtz']. cbn in *. f_equal.
    apply list_eq. intros i.
    destruct (decide (i < Z.to_nat h)%nat) as [Hi|Hi].
    + rewrite (Hget' i _ (Hcount i Hi)), (Hcount i Hi). f_equal.
      pose proof (max_count_ge (Z.of_nat i) items item Hin). lia.
    + rewrite !lookup_ge_None_2 by lia. done.
Qed.

Lemma fm_counters_running_maximum_witness :
  (forall item seed,
     let x := hash_function item seed in
     0 <= x
     /\ (x = 0 -> trailing_zeros x = 0)
     /\ (0 < x ->
         0 <= trailing_zeros x
         /\ Z.testbit x (trailing_zeros x) = true
         /\ forall j, 0 <= j < trailing_zeros x -> Z.testbit x j = false))
  /\ exists fm,
       Task3.add_all (init 3) ["element-1"; "element-2"] = Returned fm
       /\ length (max_trailing_zeros fm) = Z.to_nat 3
       /\ (forall i : nat, (i < Z.to_nat 3)%nat ->
             max_trailing_zeros fm !! i
             = Some (max_trailing_zero_bits (Z.of_nat i) ["element-1"; "element-2"]))
       /\ forall item,
            exists fm',
              add fm item = Returned fm'
              /\ (forall (i : nat) c, max_trailing_zeros fm !! i = Some c ->
                    exists c', max_trailing_zeros fm' !! i = Some c' /\ c <= c')
              /\ (In item ["element-1"; "element-2"] -> fm' = fm).
Proof. apply (fm_counters_running_maximum 3 ["element-1"; "element-2"]). lia. Defined.

(** The counters of the three-counter estimator after two real items. *)
Example fm_counters_of_two_items :
  Task3.add_all (init 3) ["element-1"; "element-2"]
  = Returned {| max_trailing_zeros := [0; 1; 4] |}
  /\ max_trailing_zero_bits 0 ["element-1"; "element-2"] = 0
  /\ max_trailing_zero_bits 1 ["element-1"; "element-2"] = 1
  /\ max_trailing_zero_bits 2 ["element-1"; "element-2"] = 4.
Proof. vm_compute. done. Qed.

Lemma median_empty : median [] = Raised StatisticsError.
Proof. reflexivity. Qed.

(** [median] on data of odd length is an item of the data, an [int]. *)
Lemma median_odd (data : list Z) :
  Z.of_nat (length data) mod 2 = 1 ->
  exists x, x ∈ data /\ median data = Returned (Int x).
Proof.
  intros Hodd. unfold median.
  pose proof (merge_sort_Permutation Z.le data) as Hperm.
  rewrite (Permutation_length Hperm).
  pose proof (Nat2Z.is_nonneg (length data)) as Hn0.
  remember (Z.of_nat (length data)) as n eqn:Hn.
  destruct (Z.eqb_spec n 0) as [Hz|Hz]; [rewrite Hz in Hodd; done|].
  destruct (Z.eqb_spec (n mod 2) 1); [|done].
  destruct (getitem_total (merge_sort Z.le data) (n / 2)) as (x & Hx & Hget).
  { rewrite (Permutation_length Hperm), <- Hn. Z.div_mod_to_equations. lia. }
  exists x. split.
  - rewrite <- Hperm. by eapply list_elem_of_lookup_2.
  - by rewrite Hget.
Qed.

(** [median] on data of even length is the mean of two items, a [float]. *)
Lemma median_even (data : list Z) :
  data <> [] -> Z.of_nat (length data) mod 2 = 0 ->
  exists a b, a ∈ data /\ b ∈ data
    /\ median data = Returned (Float (IZR (a + b) / 2)).
Proof.
  intros Hne Heven. unfold median.
  pose proof (merge_sort_Permutation Z.le data) as Hperm.
  rewrite (Permutation_length Hperm).
  pose proof (Nat2Z.is_nonneg (length data)) as Hn0.
  remember (Z.of_nat (length data)) as n eqn:Hn.
  assert (n <> 0) by (destruct data; [done|cbn in Hn; lia]).
  destruct (Z.eqb_spec n 0) as [Hz|Hz]; [done|].
  destruct (Z.eqb_spec (n mod 2) 1); [lia|].
  destruct (getitem_total (merge_sort Z.le data) (n / 2 - 1)) as (a & Ha & Hgeta).
  { rewrite (Permutation_length Hperm), <- Hn. Z.div_mod_to_equations. lia. }
  destruct (getitem_total (merge_sort Z.le data) (n / 2)) as (b & Hb & Hgetb).
  { rewrite (Permutation_length Hperm), <- Hn. Z.div_mod_to_equations. lia. }
  exists a, b. split; [|split].
  - rewrite <- Hperm. by eapply list_elem_of_lookup_2.
  - rewrite <- Hperm. by eapply list_elem_of_lookup_2.
  - by rewrite Hgeta, Hgetb.
Qed.

Lemma half_not_integer (z : Z) : (IZR z <> 1 / 2)%R.
Proof.
  intros Hz. assert (IZR (2 * z) = IZR 1) as Heq by (rewrite mult_IZR; lra).
  apply eq_IZR in Heq. lia.
Qed.

(** C5, on the code: a fresh estimator with one counter has median 0 and
    estimates [1 / 0.75351], not [1 / 0.77351]. *)
Theorem estimate_number_fresh_divides_by_0_75351 :
  estimate_number (init 1) = Returned ((1 / 0.75351)%R, Int 0)
  /\ (1 / 0.75351 <> 1 / 0.77351)%R.
Proof.
  split; [|lra].
  unfold estimate_number.
  replace (median (max_trailing_zeros (init 1))) with (Returned (Int 0) : outcome num)
    by reflexivity.
  cbn. do 2 f_equal.
Qed.

(** C9, refuted as stated: with two counters and the one item ["element-1"]
    the counters are 0 and 1, and the second component of the estimate is
    the float 0.5, not an integer. *)
Lemma estimate_number_median_half :
  exists fm est,
    Task3.add_all (init 2) ["element-1"] = Returned fm
    /\ max_trailing_zeros fm = [0; 1]
    /\ estimate_number fm = Returned (est, Float (1 / 2))
    /\ (forall e z, estimate_number fm <> Returned (e, Int z))
    /\ (forall z, IZR z <> 1 / 2)%R.
Proof.
  exists {| max_trailing_zeros := [0; 1] |}. eexists.
  split; [vm_compute; reflexivity|]. split; [reflexivity|].
  assert (Hm : median [0; 1] = Returned (Float (1 / 2))).
  { unfold median.
    replace (merge_sort Z.le [0; 1]) with [0; 1] by (vm_compute; reflexivity).
    cbn. do 2 f_equal. }
  unfold estimate_number. cbn [max_trailing_zeros]. rewrite Hm. cbn.
  split; [reflexivity|]. split; [|apply half_not_integer].
  intros e z. discriminate.
Qed.

(** C9, as the code has it: after any adds on an estimator with [h >= 1]
    counters, [estimate_number] returns a pair of a float and the median
    [m] of the counters, where [m] is one of the counters (an [int]) when
    [h] is odd, and the mean of two counters (a [float], an integer or a
    half-integer) when [h] is even. *)
Theorem estimate_number_median_kind (h : Z) (items : list string) :
  1 <= h ->
  exists fm est m,
    Task3.add_all (init h) items = Returned fm
    /\ estimate_number fm = Returned (est, m)
    /\ (h mod 2 = 1 ->
         exists c, c ∈ max_trailing_zeros fm /\ m = Int c)
    /\ (h mod 2 = 0 ->
         exists a b, a ∈ max_trailing_zeros fm /\ b ∈ max_trailing_zeros fm
                     /\ m = Float (IZR (a + b) / 2)).
Proof.
  intros Hh.
  destruct (add_all_spec_fm items (init h)) as (fm & Hall & Hlen & _).
  rewrite init_length in Hlen.
  assert (Hn : Z.of_nat (length (max_trailing_zeros fm)) = h) by lia.
  destruct (Z.eq_dec (h mod 2) 1) as [Hodd|Hodd].
  - destruct (median_odd (max_trailing_zeros fm)) as (c & Hc & Hmed); [by rewrite Hn|].
    exists fm, (to_real (pow2 (Int c)) / 0.75351)%R, (Int c).
    split; [done|]. unfold estimate_number. rewrite Hmed. cbn.
    split; [done|]. split; [by exists c|]. intros Heven. rewrite Hodd in Heven. done.
  - assert (Heven : h mod 2 = 0) by (Z.div_mod_to_equations; lia).
    destruct (median_even (max_trailing_zeros fm)) as (a & b & Ha & Hb & Hmed).
    { intros Hnil. rewrite Hnil in Hn. cbn in Hn. lia. }
    { by rewrite Hn. }
    exists fm, (to_real (pow2 (Float (IZR (a + b) / 2))) / 0.75351)%R,
      (Float (IZR (a + b) / 2)).
    split; [done|]. unfold estimate_number. rewrite Hmed. cbn.
    split; [done|]. split; [done|]. intros _. by exists a, b.
Qed.

Lemma estimate_number_median_kind_witness :
  exists fm est m,
    Task3.add_all (init 3) ["element-1"] = Returned fm
    /\ estimate_number fm = Returned (est, m)
    /\ (3 mod 2 = 1 ->
         exists c, c ∈ max_trailing_zeros fm /\ m = Int c)
    /\ (3 mod 2 = 0 ->
         exists a b, a ∈ max_trailing_zeros fm /\ b ∈ max_trailing_zeros fm
                     /\ m = Float (IZR (a + b) / 2)).
Proof. apply (estimate_number_median_kind 3 ["element-1"]). lia. Defined.

End EstimatorFacts.

(** ** task1: reservoir sampling *)

Section ReservoirFacts.
Import Task1.
Context {A : Type}.
Implicit Types (xs : list A) (draws : Z -> Z) (k : Z).

Lemma enumerate_length xs : length (enumerate xs) = length xs.
Proof. unfold enumerate. rewrite length_zip, length_map, length_seq. lia. Qed.

Lemma enumerate_snoc xs (x : A) :
  enumerate (xs ++ [x]) = enumerate xs ++ [(Z.of_nat (length xs), x)].
Proof.
  unfold enumerate. rewrite length_app. cbn [length].
  rewrite Nat.add_1_r, seq_S, map_app. cbn.
  rewrite zip_with_app by (by rewrite length_map, length_seq). done.
Qed.

Lemma enumerate_lookup xs (i : nat) (it : Z * A) :
  enumerate xs !! i = Some it -> fst it = Z.of_nat i /\ xs !! i = Some (snd it).
Proof.
  destruct it as [j x]. unfold enumerate. rewrite lookup_zip_Some.
  intros [Hj Hx]. split; [|done]. cbn.
  rewrite list_lookup_fmap in Hj. apply lookup_lt_Some in Hx as Hlt.
  rewrite lookup_seq_lt in Hj by done. cbn in Hj. congruence.
Qed.

Lemma reservoir_snoc draws k xs (x : A) :
  reservoir_sampling draws k (xs ++ [x])
  = s ← reservoir_sampling draws k xs; step draws k s (Z.of_nat (length xs), x).
Proof.
  unfold reservoir_sampling. rewrite enumerate_snoc, for_in_app.
  destruct (for_in (enumerate xs) (step draws k) []) as [s|e]; [|done].
  cbn [mbind outcome_bind]. apply for_in_singleton.
Qed.

(** While the stream is no longer than [k], the sample is the stream. *)
Lemma reservoir_prefix draws k xs :
  Z.of_nat (length xs) <= k -> reservoir_sampling draws k xs = Returned xs.
Proof.
  induction xs as [|x xs IH] using rev_ind; intros Hlen; [done|].
  rewrite length_app in Hlen. cbn in Hlen.
  rewrite reservoir_snoc, IH by lia. cbn.
  destruct (Z.ltb_spec (Z.of_nat (length xs)) k); [done|lia].
Qed.

(** The sample grows to [k] items and keeps that size; no run raises. *)
Lemma reservoir_length draws k xs :
  valid_draws draws ->
  exists sample,
    reservoir_sampling draws k xs = Returned sample
    /\ length sample = Nat.min (length xs) (Z.to_nat k).
Proof.
  intros Hd. induction xs as [|x xs IH] using rev_ind.
  - exists []. split; [done|]. cbn. lia.
  - destruct IH as (s & Hs & Hlen). rewrite reservoir_snoc, Hs. cbn.
    rewrite length_app. cbn [length].
    destruct (Z.ltb_spec (Z.of_nat (length xs)) k) as [Hlt|Hge].
    + eexists. split; [reflexivity|]. rewrite length_app. cbn. lia.
    + pose proof (Hd (Z.of_nat (length xs)) ltac:(lia)) as Hr.
      destruct (Z.ltb_spec (draws (Z.of_nat (length xs))) k) as [Hlt|Hge'].
      * rewrite setitem_in_range by lia.
        eexists. split; [reflexivity|]. rewrite length_insert. lia.
      * exists s. split; [done|]. lia.
Qed.

(** C3. With draws in range, [reservoir_sampling k] returns a list of
    [min n k] items for a stream of [n] items and [k >= 1], and the empty
    list for [k = 0]. *)
Theorem reservoir_sample_size draws k xs :
  valid_draws draws ->
  (1 <= k ->
   exists sample,
     reservoir_sampling draws k xs = Returned sample
     /\ Z.of_nat (length sample) = Z.min (Z.of_nat (length xs)) k)
  /\ (k = 0 -> reservoir_sampling draws k xs = Returned []).
Proof.
  intros Hd. destruct (reservoir_length draws k xs Hd) as (s & Hs & Hlen). split.
  - intros Hk. exists s. split; [done|]. lia.
  - intros ->. rewrite Hs. f_equal. apply nil_length_inv. cbn in Hlen. lia.
Qed.

End ReservoirFacts.

Lemma reservoir_sample_size_witness :
  (1 <= 2 ->
   exists sample,
     Task1.reservoir_sampling (fun _ => 0) 2 [10; 20; 30] = Returned sample
     /\ Z.of_nat (length sample) = Z.min (Z.of_nat (length [10; 20; 30])) 2)
  /\ (2 = 0 -> Task1.reservoir_sampling (fun _ => 0) 2 [10; 20; 30] = Returned []).
Proof.
  apply (reservoir_sample_size (fun _ => 0) 2 [10; 20; 30]).
  unfold Task1.valid_draws. intros index Hindex. lia.
Defined.

(** The scenario of the specification: [k = 2], the stream [10, 20, 30],
    the draw 0 at position 2. *)
Example reservoir_scenario :
  Task1.reservoir_sampling (fun _ => 0) 2 [10; 20; 30] = Returned [30; 20].
Proof. reflexivity. Qed.

(** *** Counting runs *)

Section Counting.
Context {X : Type}.
Implicit Types (l : list X).

Lemma length_filter_bind {Y} (Q : Y -> Prop) `{!forall y, Decision (Q y)}
    (f : X -> list Y) l :
  length (filter Q (l ≫= f)) = sum_list_with (fun x => length (filter Q (f x))) l.
Proof.
  induction l as [|x l IH]; [done|].
  rewrite bind_cons, filter_app, length_app, IH. done.
Qed.

Lemma length_bind {Y} (f : X -> list Y) l :
  length (l ≫= f) = sum_list_with (fun x => length (f x)) l.
Proof.
  induction l as [|x l IH]; [done|].
  rewrite bind_cons, length_app, IH. done.
Qed.

Lemma length_filter_fmap {Y} (Q : Y -> Prop) `{!forall y, Decision (Q y)}
    (g : X -> Y) l :
  length (filter Q (g <$> l)) = length (filter (fun x => Q (g x)) l).
Proof.
  induction l as [|x l IH]; [done|].
  rewrite fmap_cons, !filter_cons. destruct (decide (Q (g x))); cbn; by rewrite IH.
Qed.

Lemma bind_singleton_fmap {Y} (g : X -> Y) l : (x ← l; [g x]) = g <$> l.
Proof. induction l as [|x l IH]; [done|]. rewrite bind_cons, IH. done. Qed.

Lemma length_filter_ext_in (Q1 Q2 : X -> Prop)
    `{!forall x, Decision (Q1 x)} `{!forall x, Decision (Q2 x)} l :
  (forall x, x ∈ l -> Q1 x <-> Q2 x) ->
  length (filter Q1 l) = length (filter Q2 l).
Proof.
  induction l as [|x l IH]; intros Hext; [done|].
  rewrite !filter_cons.
  assert (Hx : Q1 x <-> Q2 x) by (apply Hext; left).
  assert (Hl : length (filter Q1 l) = length (filter Q2 l)).
  { apply IH. intros y Hy. apply Hext. by right. }
  destruct (decide (Q1 x)), (decide (Q2 x)); cbn; tauto || lia.
Qed.

Lemma sum_list_with_ext_in (f g : X -> nat) l :
  (forall x, x ∈ l -> f x = g x) -> sum_list_with f l = sum_list_with g l.
Proof.
  induction l as [|x l IH]; intros Hext; [done|]. cbn.
  rewrite (Hext x) by left. rewrite IH; [done|].
  intros y Hy. apply Hext. by right.
Qed.

Lemma sum_list_with_const (c : nat) l :
  sum_list_with (fun _ => c) l = (c * length l)%nat.
Proof. induction l as [|x l IH]; cbn; lia. Qed.

Lemma sum_list_with_indicator (Q : X -> Prop) `{!forall x, Decision (Q x)} (n : nat) l :
  sum_list_with (fun x => if decide (Q x) then n else 0%nat) l
  = (n * length (filter Q l))%nat.
Proof.
  induction l as [|x l IH]; [cbn; lia|].
  rewrite filter_cons. cbn [sum_list_with]. rewrite IH.
  destruct (decide (Q x)); cbn [length]; lia.
Qed.

End Counting.

Lemma elem_of_range (n j : Z) : j ∈ range n <-> 0 <= j < n.
Proof.
  unfold range. rewrite list_elem_of_fmap. split.
  - intros (i & -> & Hi). apply elem_of_seq in Hi. lia.
  - intros Hj. exists (Z.to_nat j). split; [lia|]. apply elem_of_seq. lia.
Qed.

Lemma count_range_lt (a : Z) (m : nat) :
  0 <= a ->
  length (filter (fun j => j < a) (range (Z.of_nat m))) = Nat.min (Z.to_nat a) m.
Proof.
  intros Ha. induction m as [|m IH]; [by rewrite Nat.min_0_r|].
  rewrite Nat2Z.inj_succ, <- Z.add_1_r, range_succ by lia.
  rewrite filter_app, length_app, IH, filter_cons.
  destruct (decide (Z.of_nat m < a)); cbn [length filter list_filter]; lia.
Qed.

Lemma count_range_ne (t : Z) (m : nat) :
  0 <= t ->
  length (filter (fun j => j <> t) (range (Z.of_nat m)))
  = if decide (t < Z.of_nat m) then (m - 1)%nat else m.
Proof.
  intros Ht. induction m as [|m IH]; [by case_decide|].
  rewrite Nat2Z.inj_succ, <- Z.add_1_r, range_succ by lia.
  rewrite filter_app, length_app, IH, filter_cons.
  destruct (decide (Z.of_nat m <> t)); repeat case_decide;
    cbn [length filter list_filter]; lia.
Qed.

(** *** The draws of a run *)

Section DrawFacts.
Import Task1.
Variable k : nat.

Lemma elem_of_draw_sequences_succ (c : nat) (ds' : list Z) :
  ds' ∈ draw_sequences k (S c)
  <-> exists ds j, ds' = ds ++ [j] /\ ds ∈ draw_sequences k c
                   /\ 0 <= j <= Z.of_nat (k + c).
Proof.
  cbn [draw_sequences]. rewrite list_elem_of_bind. split.
  - intros (ds & Hj & Hds). apply list_elem_of_bind in Hj as (j & Heq & Hj).
    apply list_elem_of_singleton in Heq as ->. apply elem_of_range in Hj.
    exists ds, j. repeat split; done || lia.
  - intros (ds & j & -> & Hds & Hj). exists ds. split; [|done].
    apply list_elem_of_bind. exists j. split; [by apply list_elem_of_singleton|].
    apply elem_of_range. lia.
Qed.

Lemma draw_sequences_length (c : nat) :
  length (draw_sequences k (S c)) = (length (draw_sequences k c) * (k + c + 1))%nat.
Proof.
  cbn [draw_sequences]. rewrite length_bind.
  rewrite (sum_list_with_ext_in _ (fun _ => (k + c + 1)%nat)).
  - rewrite sum_list_with_const. lia.
  - intros ds _. rewrite bind_singleton_fmap, length_fmap, range_length. lia.
Qed.

Lemma draw_sequences_pos (c : nat) : (0 < length (draw_sequences k c))%nat.
Proof.
  induction c as [|c IH]; [cbn; lia|]. rewrite draw_sequences_length. nia.
Qed.

Lemma draw_sequences_valid (c : nat) (ds : list Z) :
  ds ∈ draw_sequences k c ->
  length ds = c
  /\ forall m : nat, (m < c)%nat -> 0 <= nth m ds 0 <= Z.of_nat (k + m).
Proof.
  revert ds. induction c as [|c IH]; intros ds Hds.
  - apply list_elem_of_singleton in Hds as ->. split; [done|]. intros m Hm; lia.
  - apply elem_of_draw_sequences_succ in Hds as (ds0 & j & -> & Hds0 & Hj).
    destruct (IH ds0 Hds0) as [Hlen Hnth]. split.
    + rewrite length_app. cbn. lia.
    + intros m Hm. destruct (decide (m < c)%nat) as [Hlt|Hge].
      * rewrite app_nth1 by lia. by apply Hnth.
      * assert (m = c) as -> by lia.
        rewrite app_nth2 by lia. rewrite Hlen, Nat.sub_diag. cbn. lia.
Qed.

Lemma draws_of_valid (c : nat) (ds : list Z) :
  ds ∈ draw_sequences k c -> valid_draws (draws_of k ds).
Proof.
  intros Hds index Hindex. destruct (draw_sequences_valid c ds Hds) as [Hlen Hnth].
  unfold draws_of. destruct (Z.ltb_spec index (Z.of_nat k)); [lia|].
  destruct (decide (Z.to_nat (index - Z.of_nat k) < c)%nat) as [Hlt|Hge].
  - specialize (Hnth _ Hlt). lia.
  - rewrite nth_overflow by lia. lia.
Qed.

Lemma draws_of_snoc_old (ds : list Z) (j index : Z) :
  index < Z.of_nat (k + length ds) ->
  draws_of k (ds ++ [j]) index = draws_of k ds index.
Proof.
  intros Hindex. unfold draws_of.
  destruct (Z.ltb_spec index (Z.of_nat k)); [done|].
  rewrite app_nth1 by lia. done.
Qed.

Lemma draws_of_snoc_new (ds : list Z) (j : Z) :
  draws_of k (ds ++ [j]) (Z.of_nat (k + length ds)) = j.
Proof.
  unfold draws_of. destruct (Z.ltb_spec (Z.of_nat (k + length ds)) (Z.of_nat k)); [lia|].
  rewrite app_nth2 by lia.
  replace (Z.to_nat (Z.of_nat (k + length ds) - Z.of_nat k) - length ds)%nat
    with 0%nat by lia.
  done.
Qed.

End DrawFacts.

(** *** What a run keeps *)

Section SampleFacts.
Import Task1.
Context {B : Type}.
Implicit Types (ys s : list B) (draws : Z -> Z) (k : Z) (P : B -> bool).

(** A run depends on the draws at the positions from [k] on only. *)
Lemma reservoir_ext draws1 draws2 k ys :
  (forall i, k <= i < Z.of_nat (length ys) -> draws1 i = draws2 i) ->
  reservoir_sampling draws1 k ys = reservoir_sampling draws2 k ys.
Proof.
  induction ys as [|y ys IH] using rev_ind; intros Hext; [done|].
  rewrite length_app in Hext. cbn in Hext.
  rewrite !reservoir_snoc, IH by (intros i Hi; apply Hext; lia).
  destruct (reservoir_sampling draws2 k ys) as [s|e]; [|done]. cbn.
  destruct (Z.ltb_spec (Z.of_nat (length ys)) k); [done|].
  rewrite Hext by lia. done.
Qed.

(** The loop never looks at the items: it commutes with relabelling. *)
Lemma reservoir_fmap {C} (f : B -> C) draws k ys :
  reservoir_sampling draws k (f <$> ys)
  = fmap (M:=list) f <$> reservoir_sampling draws k ys.
Proof.
  induction ys as [|y ys IH] using rev_ind; [done|].
  rewrite fmap_app. cbn [fmap list_fmap].
  rewrite !reservoir_snoc, IH, length_fmap.
  destruct (reservoir_sampling draws k ys) as [s|e]; [|done]. cbn.
  destruct (Z.ltb_spec (Z.of_nat (length ys)) k).
  { cbn. by rewrite fmap_app. }
  destruct (Z.ltb_spec (draws (Z.of_nat (length ys))) k); [|done].
  unfold setitem. rewrite length_fmap.
  destruct (norm_index (length s) (draws (Z.of_nat (length ys)))) as [j|e]; [|done].
  cbn. by rewrite list_fmap_insert.
Qed.

Lemma setitem_Returned_inv (l l' : list B) (i : Z) (x : B) :
  0 <= i -> setitem l i x = Returned l' ->
  i < Z.of_nat (length l) /\ l' = <[Z.to_nat i := x]> l.
Proof.
  intros Hi. unfold setitem, norm_index.
  destruct (Z.ltb_spec i 0); [lia|].
  destruct (Z.leb_spec 0 i); [|lia].
  destruct (Z.ltb_spec i (Z.of_nat (length l))); cbn; [|done].
  intros [= <-]. done.
Qed.

Lemma existsb_lookup P s :
  existsb P s = true <-> exists (i : nat) x, s !! i = Some x /\ P x = true.
Proof.
  rewrite existsb_exists. split.
  - intros (x & Hx & HP). apply list_elem_of_In, list_elem_of_lookup in Hx as [i Hi].
    by exists i, x.
  - intros (i & x & Hi & HP). exists x. split; [|done].
    apply list_elem_of_In. by eapply list_elem_of_lookup_2.
Qed.

Lemma existsb_false_lookup P s (i : nat) x :
  existsb P s = false -> s !! i = Some x -> P x = false.
Proof.
  intros Hfalse Hi. destruct (P x) eqn:HP; [|done].
  assert (existsb P s = true) by (apply existsb_lookup; eauto). congruence.
Qed.

Lemma at_most_one_app_l P ys zs : at_most_one P (ys ++ zs) -> at_most_one P ys.
Proof.
  intros H i j x y Hi Hj. apply (H i j x y); by apply lookup_app_l_Some.
Qed.

(** When the last item of the stream satisfies [P], no earlier one does. *)
Lemma at_most_one_last P ys y :
  at_most_one P (ys ++ [y]) -> P y = true -> existsb P ys = false.
Proof.
  intros H HP. destruct (existsb P ys) eqn:Hex; [|done].
  apply existsb_lookup in Hex as (i & x & Hi & HPx).
  apply lookup_lt_Some in Hi as Hlt.
  assert (i = length ys); [|lia].
  apply (H i (length ys) x y); try done.
  - by apply lookup_app_l_Some.
  - by apply list_lookup_middle.
Qed.

(** The sample of a run holds items of the stream, and at most one that
    satisfies [P] when the stream has at most one. *)
Lemma reservoir_inv P draws k ys s :
  valid_draws draws -> at_most_one P ys ->
  reservoir_sampling draws k ys = Returned s ->
  at_most_one P s /\ forall x, x ∈ s -> x ∈ ys.
Proof.
  intros Hd. revert s. induction ys as [|y ys IH] using rev_ind; intros s Hone Hrun.
  - injection Hrun as <-. split; [|done]. intros i j x y Hi. done.
  - rewrite reservoir_snoc in Hrun.
    destruct (reservoir_sampling draws k ys) as [s'|e] eqn:Hs'; [|done].
    cbn in Hrun.
    destruct (IH s' (at_most_one_app_l _ _ _ Hone) eq_refl) as [Hone' Hsub].
    destruct (Z.ltb_spec (Z.of_nat (length ys)) k) as [Hlt|Hge].
    { rewrite reservoir_prefix in Hs' by lia.
      injection Hs' as <-. injection Hrun as <-. done. }
    pose proof (Hd (Z.of_nat (length ys)) ltac:(lia)) as Hr.
    destruct (Z.ltb_spec (draws (Z.of_nat (length ys))) k) as [Hlt|Hge'].
    + apply setitem_Returned_inv in Hrun as [Hin ->]; [|lia].
      set (t := Z.to_nat (draws (Z.of_nat (length ys)))).
      assert (Hstale : forall (i : nat) x, s' !! i = Some x -> P x = true -> P y = true -> False).
      { intros i x Hi HPx HPy.
        pose proof (at_most_one_last P ys y Hone HPy) as Hnone.
        assert (x ∈ ys) as Hx by (apply Hsub; by eapply list_elem_of_lookup_2).
        apply list_elem_of_lookup in Hx as [m Hm].
        pose proof (existsb_false_lookup P ys m x Hnone Hm). congruence. }
      split.
      * intros i j x1 x2 Hi Hj HP1 HP2.
        destruct (decide (i = t)) as [->|Hi'], (decide (j = t)) as [->|Hj']; [done|..].
        -- rewrite list_lookup_insert_eq in Hi by lia. injection Hi as <-.
           rewrite list_lookup_insert_ne in Hj by done.
           destruct (Hstale j x2 Hj HP2 HP1).
        -- rewrite list_lookup_insert_eq in Hj by lia. injection Hj as <-.
           rewrite list_lookup_insert_ne in Hi by done.
           destruct (Hstale i x1 Hi HP1 HP2).
        -- rewrite list_lookup_insert_ne in Hi, Hj by done.
           by apply (Hone' i j x1 x2).
      * intros x Hx. apply list_elem_of_lookup in Hx as [i Hi].
        destruct (decide (i = t)) as [->|Hi'].
        -- rewrite list_lookup_insert_eq in Hi by lia. injection Hi as <-.
           apply elem_of_app. right. left.
        -- rewrite list_lookup_insert_ne in Hi by done.
           apply elem_of_app. left. apply Hsub. by eapply list_elem_of_lookup_2.
    + injection Hrun as <-. split; [done|].
      intros x Hx. apply elem_of_app. left. by apply Hsub.
Qed.

End SampleFacts.

(** *** Uniformity *)

Section UniformFacts.
Import Task1.
Context {B : Type} (P : B -> bool) (k : nat).
Implicit Types (ys s : list B) (ds : list Z).

(** One more item: the run draws once more, at the new item's position. *)
Lemma run_snoc (c : nat) ys (y : B) ds (j : Z) :
  length ys = (k + c)%nat -> ds ∈ draw_sequences k c ->
  reservoir_sampling (draws_of k (ds ++ [j])) (Z.of_nat k) (ys ++ [y])
  = s ← reservoir_sampling (draws_of k ds) (Z.of_nat k) ys;
    if j <? Z.of_nat k then setitem s j y else Returned s.
Proof.
  intros Hlen Hds. destruct (draw_sequences_valid k c ds Hds) as [Hdl _].
  rewrite reservoir_snoc.
  rewrite (reservoir_ext (draws_of k (ds ++ [j])) (draws_of k ds))
    by (intros i Hi; apply draws_of_snoc_old; lia).
  destruct (reservoir_sampling (draws_of k ds) (Z.of_nat k) ys) as [s|e]; [|done].
  cbn [mbind outcome_bind]. unfold step.
  destruct (Z.ltb_spec (Z.of_nat (length ys)) (Z.of_nat k)); [lia|].
  replace (Z.of_nat (length ys)) with (Z.of_nat (k + length ds)) by lia.
  by rewrite draws_of_snoc_new.
Qed.

Lemma run_sample (c : nat) ys ds :
  length ys = (k + c)%nat -> ds ∈ draw_sequences k c -> at_most_one P ys ->
  exists s,
    reservoir_sampling (draws_of k ds) (Z.of_nat k) ys = Returned s
    /\ length s = k
    /\ at_most_one P s
    /\ forall x, x ∈ s -> x ∈ ys.
Proof.
  intros Hlen Hds Hone. pose proof (draws_of_valid k c ds Hds) as Hd.
  destruct (reservoir_length (draws_of k ds) (Z.of_nat k) ys Hd) as (s & Hs & Hsl).
  destruct (reservoir_inv P _ _ _ _ Hd Hone Hs) as [Hone' Hsub].
  exists s. repeat split; try done. lia.
Qed.

Lemma existsb_false_sub ys s :
  existsb P ys = false -> (forall x, x ∈ s -> x ∈ ys) -> existsb P s = false.
Proof.
  intros Hnone Hsub. destruct (existsb P s) eqn:Hex; [|done].
  apply existsb_lookup in Hex as (i & x & Hi & HP).
  assert (x ∈ ys) as Hx by (apply Hsub; by eapply list_elem_of_lookup_2).
  apply list_elem_of_lookup in Hx as [m Hm].
  pose proof (existsb_false_lookup P ys m x Hnone Hm). congruence.
Qed.

(** The new item satisfies [P]: it is kept by the [k] draws below [k]. *)
Lemma count_new (c : nat) ys (y : B) ds :
  length ys = (k + c)%nat -> ds ∈ draw_sequences k c ->
  at_most_one P (ys ++ [y]) -> P y = true ->
  length (filter
    (fun ds' => holds P (reservoir_sampling (draws_of k ds') (Z.of_nat k) (ys ++ [y])) = true)
    (j ← range (Z.of_nat (k + c) + 1); [ds ++ [j]])) = k.
Proof.
  intros Hlen Hds Hone HPy.
  destruct (run_sample c ys ds Hlen Hds (at_most_one_app_l _ _ _ Hone))
    as (s & Hs & Hsl & _ & Hsub).
  pose proof (existsb_false_sub ys s (at_most_one_last P ys y Hone HPy) Hsub) as Hnone.
  rewrite bind_singleton_fmap, length_filter_fmap.
  rewrite (length_filter_ext_in _ (fun j => j < Z.of_nat k)).
  - replace (Z.of_nat (k + c) + 1) with (Z.of_nat (S (k + c))) by lia.
    rewrite count_range_lt by lia. lia.
  - intros j Hj. apply elem_of_range in Hj.
    rewrite (run_snoc c) by done. rewrite Hs. cbn [mbind outcome_bind].
    destruct (Z.ltb_spec j (Z.of_nat k)) as [Hlt|Hge].
    + rewrite setitem_in_range by lia. cbn [holds]. split; [done|]. intros _.
      apply existsb_lookup. exists (Z.to_nat j), y. split; [|done].
      apply list_lookup_insert_eq. lia.
    + cbn [holds]. rewrite Hnone. split; [done|lia].
Qed.

(** The new item does not satisfy [P]: a sample that held the [P] item
    loses it to one draw out of [k + c + 1], and no sample gains one. *)
Lemma count_old (c : nat) ys (y : B) ds :
  length ys = (k + c)%nat -> ds ∈ draw_sequences k c ->
  at_most_one P (ys ++ [y]) -> P y = false ->
  length (filter
    (fun ds' => holds P (reservoir_sampling (draws_of k ds') (Z.of_nat k) (ys ++ [y])) = true)
    (j ← range (Z.of_nat (k + c) + 1); [ds ++ [j]]))
  = if decide (holds P (reservoir_sampling (draws_of k ds) (Z.of_nat k) ys) = true)
    then (k + c)%nat else 0%nat.
Proof.
  intros Hlen Hds Hone HPy.
  destruct (run_sample c ys ds Hlen Hds (at_most_one_app_l _ _ _ Hone))
    as (s & Hs & Hsl & Hone' & _).
  rewrite bind_singleton_fmap, length_filter_fmap. rewrite Hs. cbn [holds].
  destruct (decide (existsb P s = true)) as [Hex|Hex].
  - apply existsb_lookup in Hex as (t & x & Ht & HPx).
    apply lookup_lt_Some in Ht as Htlt.
    rewrite (length_filter_ext_in _ (fun j => j <> Z.of_nat t)).
    + replace (Z.of_nat (k + c) + 1) with (Z.of_nat (S (k + c))) by lia.
      rewrite count_range_ne by lia. rewrite decide_True by lia. lia.
    + intros j Hj. apply elem_of_range in Hj.
      rewrite (run_snoc c) by done. rewrite Hs. cbn [mbind outcome_bind].
      destruct (Z.ltb_spec j (Z.of_nat k)) as [Hlt|Hge].
      * rewrite setitem_in_range by lia. cbn [holds]. rewrite existsb_lookup. split.
        -- intros (i & z & Hi & HPz) ->. rewrite Nat2Z.id in Hi.
           destruct (decide (i = t)) as [->|Hne].
           ++ rewrite list_lookup_insert_eq in Hi by lia. congruence.
           ++ rewrite list_lookup_insert_ne in Hi by done.
              apply Hne. by apply (Hone' i t z x).
        -- intros Hne. exists t, x. split; [|done].
           rewrite list_lookup_insert_ne by lia. done.
      * cbn [holds]. split; [lia|]. intros _. apply existsb_lookup. eauto.
  - apply not_true_is_false in Hex.
    rewrite (length_filter_ext_in _ (fun _ => False)).
    + by induction (range _) as [|? ? IH].
    + intros j Hj. apply elem_of_range in Hj.
      rewrite (run_snoc c) by done. rewrite Hs. cbn [mbind outcome_bind].
      split; [|done]. intros Hholds.
      destruct (Z.ltb_spec j (Z.of_nat k)) as [Hlt|Hge].
      * rewrite setitem_in_range in Hholds by lia. cbn [holds] in Hholds.
        apply existsb_lookup in Hholds as (i & z & Hi & HPz).
        destruct (decide (i = Z.to_nat j)) as [->|Hne].
        -- rewrite list_lookup_insert_eq in Hi by lia. congruence.
        -- rewrite list_lookup_insert_ne in Hi by done.
           pose proof (existsb_false_lookup P s i z Hex Hi). congruence.
      * cbn [holds] in Hholds. congruence.
Qed.

(** Of the runs over a stream of [k + c] items, of which exactly one
    satisfies [P], the share [k / (k + c)] keeps that item. *)
Lemma runs_with_uniform (c : nat) ys :
  length ys = (k + c)%nat -> at_most_one P ys -> existsb P ys = true ->
  (runs_with P k ys * (k + c) = k * length (draw_sequences k c))%nat.
Proof.
  revert ys. induction c as [|c IH]; intros ys Hlen Hone Hex.
  - unfold runs_with. rewrite Hlen. replace (k + 0 - k)%nat with 0%nat by lia.
    cbn [draw_sequences]. rewrite filter_cons, decide_True.
    + cbn. lia.
    + rewrite reservoir_prefix by lia. done.
  - destruct ys as [|y ys _] using rev_ind; [cbn in Hlen; lia|].
    rewrite length_app in Hlen. cbn in Hlen.
    assert (Hlen' : length ys = (k + c)%nat) by lia.
    unfold runs_with. rewrite length_app. cbn [length].
    replace (length ys + 1 - k)%nat with (S c) by lia.
    rewrite draw_sequences_length.
    cbn [draw_sequences]. rewrite length_filter_bind.
    destruct (P y) eqn:HPy.
    + rewrite (sum_list_with_ext_in _ (fun _ => k))
        by (intros ds Hds; by apply (count_new c)).
      rewrite sum_list_with_const. lia.
    + rewrite (sum_list_with_ext_in _ _ _ (fun ds Hds => count_old c ys y ds Hlen' Hds Hone HPy)).
      rewrite sum_list_with_indicator.
      assert (Hex' : existsb P ys = true).
      { rewrite existsb_app in Hex. cbn in Hex. rewrite HPy in Hex.
        by destruct (existsb P ys). }
      specialize (IH ys Hlen' (at_most_one_app_l _ _ _ Hone) Hex').
      unfold runs_with in IH. rewrite Hlen' in IH.
      replace (k + c - k)%nat with c in IH by lia.
      nia.
Qed.

End UniformFacts.

Section PositionFacts.
Import Task1.
Context {A : Type}.
Implicit Types (xs : list A).

Lemma enumerate_snd xs : snd <$> enumerate xs = xs.
Proof. unfold enumerate. apply snd_zip. by rewrite length_map, length_seq. Qed.

Lemma enumerate_at_most_one xs (p : nat) :
  at_most_one (fun it : Z * A => fst it =? Z.of_nat p) (enumerate xs).
Proof.
  intros i j x y Hi Hj Hx Hy.
  apply enumerate_lookup in Hi as [Hi _]. apply enumerate_lookup in Hj as [Hj _].
  apply Z.eqb_eq in Hx, Hy. lia.
Qed.

Lemma enumerate_existsb xs (p : nat) :
  (p < length xs)%nat ->
  existsb (fun it : Z * A => fst it =? Z.of_nat p) (enumerate xs) = true.
Proof.
  intros Hp. destruct (lookup_lt_is_Some_2 xs p Hp) as [x Hx].
  apply existsb_lookup. exists p, (Z.of_nat p, x). split; [|apply Z.eqb_refl].
  unfold enumerate. apply lookup_zip_Some. split; [|done].
  rewrite list_lookup_fmap, lookup_seq_lt by done. done.
Qed.

(** C2. For a stream of [n >= k] items, every run (one draw in [0, i] at
    each position [i >= k], all sequences of draws equally likely) returns
    the sample it returns on the stream of the items paired with their
    positions, with the positions dropped; and each position [p < n] is in
    the sample in [runs_holding k xs p] of the runs, where
    [runs_holding * n = k * (number of runs)]: the probability is [k / n]. *)
Theorem reservoir_uniform (k : nat) xs (p : nat) :
  (1 <= k)%nat -> (k <= length xs)%nat -> (p < length xs)%nat ->
  (forall draws,
     reservoir_sampling draws (Z.of_nat k) xs
     = fmap (M:=list) snd <$> reservoir_sampling draws (Z.of_nat k) (enumerate xs))
  /\ (0 < length (draw_sequences k (length xs - k)))%nat
  /\ (runs_holding k xs p * length xs
      = k * length (draw_sequences k (length xs - k)))%nat.
Proof.
  intros _ Hk Hp. split; [|split].
  - intros draws. rewrite <- reservoir_fmap. by rewrite enumerate_snd.
  - apply draw_sequences_pos.
  - unfold runs_holding.
    pose proof (runs_with_uniform (fun it : Z * A => fst it =? Z.of_nat p) k
                  (length xs - k) (enumerate xs)) as H.
    rewrite enumerate_length in H.
    replace (k + (length xs - k))%nat with (length xs) in H by lia.
    apply H; [done|apply enumerate_at_most_one|by apply enumerate_existsb].
Qed.

End PositionFacts.

Lemma reservoir_uniform_witness :
  (forall draws,
     Task1.reservoir_sampling draws (Z.of_nat 2) [10; 20; 30; 40]
     = fmap (M:=list) snd
         <$> Task1.reservoir_sampling draws (Z.of_nat 2) (enumerate [10; 20; 30; 40]))
  /\ (0 < length (Task1.draw_sequences 2 (length [10; 20; 30; 40] - 2)))%nat
  /\ (Task1.runs_holding 2 [10; 20; 30; 40] 3 * length [10; 20; 30; 40]
      = 2 * length (Task1.draw_sequences 2 (length [10; 20; 30; 40] - 2)))%nat.
Proof. apply (reservoir_uniform 2 [10; 20; 30; 40] 3); simpl; lia. Defined.

(** Twelve runs over four items with [k = 2]; six of them keep the last item. *)
Example reservoir_runs_of_four :
  length (Task1.draw_sequences 2 2) = 12%nat
  /\ Task1.runs_holding 2 [10; 20; 30; 40] 3 = 6%nat
  /\ Task1.runs_holding 2 [10; 20; 30; 40] 0 = 6%nat.
Proof. vm_compute. done. Qed.

(** ** Non-positive parameters *)

Section Configuration.
Import Task1 Task2 Task3.

Lemma add_to_bloom_filter_raises (e : exn) (bf : list Z) hfs (key : string) :
  hfs <> [] -> (forall f, f ∈ hfs -> f key = Raised e) ->
  add_to_bloom_filter bf hfs key = Raised e
  /\ check_bloom_filter bf hfs key = Raised e.
Proof.
  intros Hne Hall. destruct hfs as [|f hfs]; [done|].
  unfold add_to_bloom_filter. cbn. rewrite (Hall f) by left. done.
Qed.

Lemma create_hash_functions_nonempty (h N : Z) : 1 <= h -> create_hash_functions h N <> [].
Proof.
  intros Hh Hnil. apply (f_equal length) in Hnil.
  rewrite create_hash_functions_map, length_map, range_length in Hnil. cbn in Hnil. lia.
Qed.

Lemma hash_closure_negative (N index : Z) (key : string) :
  N < 0 -> exists v, hash_closure N index key = Returned v /\ N < v <= 0.
Proof.
  intros HN. unfold hash_closure, mod_. destruct (Z.eqb_spec N 0); [lia|].
  eexists. split; [reflexivity|]. apply Z.mod_neg_bound. lia.
Qed.

Lemma hash_closure_zero (index : Z) (key : string) :
  hash_closure 0 index key = Raised ZeroDivisionError.
Proof. reflexivity. Qed.

(** C6, refuted as stated: each structure is built with a non-positive
    parameter without an error. The sampler with [k = 0] returns an empty
    sample; one hash function for a bit array of size 0 is created, and
    raises when the first account is added; an estimator with 0 counters is
    created, accepts an item, and raises when the estimate is asked for. *)
Lemma non_positive_parameters_not_rejected :
  reservoir_sampling (fun _ => 0) 0 [10; 20; 30] = Returned []
  /\ (exists f, create_hash_functions 1 0 = [f]
                /\ add_to_bloom_filter (repeat_list 0 0) [f] "real1"
                   = Raised ZeroDivisionError)
  /\ init 0 = {| max_trailing_zeros := [] |}
  /\ add (init 0) "element-1" = Returned (init 0)
  /\ estimate_number (init 0) = Raised StatisticsError.
Proof.
  split; [reflexivity|]. split; [eexists; split; reflexivity|].
  repeat split.
Qed.

(** C6, as the code has it: nothing checks the parameters. With [k <= 0]
    the sampler returns the empty sample. With [h <= 0] no hash function is
    created, whatever the size of the bit array; for the size 0 each
    created function raises [ZeroDivisionError] when called, so the first
    add or check does; with [N < 0] and the bit array [[0] * N] the first
    add or check raises [IndexError]. An
    estimator with [h <= 0] has no counter, [add] leaves it so, and
    [estimate_number] raises [StatisticsError]. *)
Theorem non_positive_parameters_accepted {A : Type}
    (k h N : Z) (xs : list A) (draws : Z -> Z) (item : string) :
  k <= 0 -> h <= 0 -> N < 0 -> valid_draws draws ->
  reservoir_sampling draws k xs = Returned []
  /\ (forall N', create_hash_functions h N' = [])
  /\ (forall h' f key, f ∈ create_hash_functions h' 0 ->
        f key = Raised ZeroDivisionError)
  /\ (forall h' bf, 1 <= h' ->
        add_to_bloom_filter bf (create_hash_functions h' 0) item
          = Raised ZeroDivisionError
        /\ check_bloom_filter bf (create_hash_functions h' 0) item
          = Raised ZeroDivisionError)
  /\ (forall h', 1 <= h' ->
        add_to_bloom_filter (repeat_list 0 N) (create_hash_functions h' N) item
          = Raised IndexError
        /\ check_bloom_filter (repeat_list 0 N) (create_hash_functions h' N) item
          = Raised IndexError)
  /\ init h = {| max_trailing_zeros := [] |}
  /\ add (init h) item = Returned (init h)
  /\ estimate_number (init h) = Raised StatisticsError.
Proof.
  intros Hk Hh HN Hd.
  assert (Hinit : init h = {| max_trailing_zeros := [] |}).
  { unfold init, repeat_list. by replace (Z.to_nat h) with 0%nat by lia. }
  split; [|split; [|split; [|split; [|split; [|split; [|split]]]]]].
  - destruct (reservoir_length draws k xs Hd) as (s & Hs & Hlen).
    rewrite Hs. f_equal. apply nil_length_inv. lia.
  - intros N'. by rewrite create_hash_functions_map, range_nonpos.
  - intros h' f key Hf. rewrite create_hash_functions_map in Hf.
    apply list_elem_of_fmap in Hf as (i & -> & _). apply hash_closure_zero.
  - intros h' bf Hh'. apply add_to_bloom_filter_raises.
    + by apply create_hash_functions_nonempty.
    + intros f Hf. rewrite create_hash_functions_map in Hf.
      apply list_elem_of_fmap in Hf as (i & -> & _). apply hash_closure_zero.
  - intros h' Hh'.
    pose proof (create_hash_functions_nonempty h' N Hh') as Hne.
    rewrite create_hash_functions_map in *.
    destruct (range h') as [|i r]; [done|]. cbn [map].
    unfold add_to_bloom_filter, repeat_list.
    replace (Z.to_nat N) with 0%nat by lia.
    cbn [for_in check_bloom_filter replicate].
    destruct (hash_closure_negative N i item HN) as (v & -> & _).
    cbn [mbind outcome_bind]. by rewrite setitem_nil, getitem_nil.
  - done.
  - by rewrite Hinit.
  - by rewrite Hinit.
Qed.

End Configuration.

Lemma non_positive_parameters_accepted_witness :
  Task1.reservoir_sampling (fun _ => 0) (-1) [10; 20; 30] = Returned []
  /\ (forall N', Task2.create_hash_functions 0 N' = [])
  /\ (forall h' f key, f ∈ Task2.create_hash_functions h' 0 ->
        f key = Raised ZeroDivisionError)
  /\ (forall h' bf, 1 <= h' ->
        Task2.add_to_bloom_filter bf (Task2.create_hash_functions h' 0) "real1"
          = Raised ZeroDivisionError
        /\ Task2.check_bloom_filter bf (Task2.create_hash_functions h' 0) "real1"
          = Raised ZeroDivisionError)
  /\ (forall h', 1 <= h' ->
        Task2.add_to_bloom_filter (repeat_list 0 (-8)) (Task2.create_hash_functions h' (-8)) "real1"
          = Raised IndexError
        /\ Task2.check_bloom_filter (repeat_list 0 (-8)) (Task2.create_hash_functions h' (-8)) "real1"
          = Raised IndexError)
  /\ Task3.init 0 = {| Task3.max_trailing_zeros := [] |}
  /\ Task3.add (Task3.init 0) "real1" = Returned (Task3.init 0)
  /\ Task3.estimate_number (Task3.init 0) = Raised StatisticsError.
Proof.
  apply (non_positive_parameters_accepted (-1) 0 (-8) [10; 20; 30] (fun _ => 0) "real1");
    [lia | lia | lia |].
  unfold Task1.valid_draws. intros index Hindex. lia.
Defined.

(** * Further properties *)

(** ** task2: what adding an account does to the bit array *)

Section BloomBitsFacts.
Import Task2 BloomBits.
Implicit Types (bf : list Z) (ps : list nat) (hfs : list (string -> outcome Z)).

Lemma set_bits_cons (p : nat) ps bf :
  set_bits (p :: ps) bf = set_bits ps (<[p:=1]> bf).
Proof. reflexivity. Qed.

Lemma set_bits_app ps qs bf : set_bits (ps ++ qs) bf = set_bits qs (set_bits ps bf).
Proof. unfold set_bits. apply foldl_app. Qed.

Lemma set_bits_length ps bf : length (set_bits ps bf) = length bf.
Proof.
  revert bf. induction ps as [|p ps IH]; intros bf; [done|].
  rewrite set_bits_cons, IH. apply length_insert.
Qed.

Lemma set_bits_lookup ps bf (j : nat) :
  set_bits ps bf !! j
  = if decide (j ∈ ps /\ (j < length bf)%nat) then Some 1 else bf !! j.
Proof.
  revert bf. induction ps as [|p ps IH]; intros bf.
  - cbn. case_decide as H; [|done]. destruct H as [H _]. inversion H.
  - rewrite set_bits_cons, IH, length_insert.
    destruct (decide (j = p)) as [->|Hne].
    + destruct (decide (p < length bf)%nat) as [Hlt|Hge].
      * rewrite list_lookup_insert_eq by done.
        rewrite (decide_True (P:=p ∈ p :: ps /\ _)) by (split; [left|done]).
        by destruct (decide _).
      * rewrite list_insert_ge by lia.
        rewrite !decide_False by (intros [_ ?]; lia). done.
    + rewrite list_lookup_insert_ne by done.
      destruct (decide (j ∈ ps /\ (j < length bf)%nat)) as [[Hin Hlt]|Hn],
               (decide (j ∈ p :: ps /\ (j < length bf)%nat)) as [[Hin' Hlt']|Hn'];
        try done.
      * exfalso. apply Hn'. split; [by right|done].
      * exfalso. apply Hn. split; [|done].
        by apply elem_of_cons in Hin' as [?|?].
Qed.

Lemma set_bits_ext ps qs bf :
  (forall j, j ∈ ps <-> j ∈ qs) -> set_bits ps bf = set_bits qs bf.
Proof.
  intros Hext. apply list_eq. intros j. rewrite !set_bits_lookup.
  destruct (decide (j ∈ ps /\ (j < length bf)%nat)) as [[Hin Hlt]|Hn],
           (decide (j ∈ qs /\ (j < length bf)%nat)) as [[Hin' Hlt']|Hn'];
    try done.
  - exfalso. apply Hn'. split; [by apply Hext|done].
  - exfalso. apply Hn. split; [by apply Hext|done].
Qed.

Lemma elem_of_hit_positions hfs (key : string) (j : nat) :
  j ∈ hit_positions hfs key
  <-> exists f v, f ∈ hfs /\ f key = Returned v /\ Z.to_nat v = j.
Proof.
  unfold hit_positions. rewrite list_elem_of_omap. split.
  - intros (f & Hf & Hj). destruct (f key) as [v|e] eqn:Hv; [|done].
    injection Hj as <-. by exists f, v.
  - intros (f & v & Hf & Hv & <-). exists f. by rewrite Hv.
Qed.

Lemma hit_positions_length (N : Z) hfs (key : string) :
  family_in_range N hfs -> length (hit_positions hfs key) = length hfs.
Proof.
  induction hfs as [|f hfs IH]; intros Hfam; [done|].
  apply family_in_range_cons in Hfam as [Hf Hfam].
  destruct (Hf key) as (v & Hv & _).
  unfold hit_positions in *. cbn. rewrite Hv. cbn. by rewrite IH.
Qed.

(** On a bit array of the family's size, adding an account sets the bits at
    its positions and does nothing else. *)
Lemma add_eq_set_bits (N : Z) hfs bf (key : string) :
  family_in_range N hfs -> Z.of_nat (length bf) = N ->
  add_to_bloom_filter bf hfs key = Returned (set_bits (hit_positions hfs key) bf).
Proof.
  revert bf. induction hfs as [|f hfs IH]; intros bf Hfam Hlen; [done|].
  apply family_in_range_cons in Hfam as [Hf Hfam].
  destruct (Hf key) as (v & Hv & Hrange).
  unfold add_to_bloom_filter, hit_positions in *. cbn. rewrite Hv. cbn.
  rewrite setitem_in_range by lia. cbn.
  rewrite IH by (rewrite ?length_insert; done). done.
Qed.

Lemma add_all_eq_set_bits (N : Z) hfs bf (keys : list string) :
  family_in_range N hfs -> Z.of_nat (length bf) = N ->
  add_all bf hfs keys = Returned (set_bits (keys ≫= hit_positions hfs) bf).
Proof.
  intros Hfam. revert bf. induction keys as [|key keys IH]; intros bf Hlen; [done|].
  unfold add_all in *. cbn [for_in].
  rewrite (add_eq_set_bits N) by done. cbn [mbind outcome_bind].
  rewrite IH by (by rewrite set_bits_length).
  by rewrite bind_cons, set_bits_app.
Qed.

(** [check_bloom_filter] answers [True] exactly when every position of the
    account holds 1. *)
Lemma check_eq_positions (N : Z) hfs bf (key : string) :
  family_in_range N hfs -> Z.of_nat (length bf) = N ->
  exists b,
    check_bloom_filter bf hfs key = Returned b
    /\ (b = true <-> forall p, p ∈ hit_positions hfs key -> bf !! p = Some 1).
Proof.
  intros Hfam Hlen. induction hfs as [|f hfs IH].
  - exists true. split; [done|]. split; [|done]. intros _ p Hp. inversion Hp.
  - apply family_in_range_cons in Hfam as [Hf Hfam].
    destruct (Hf key) as (v & Hv & Hrange).
    destruct (IH Hfam) as (b & Hb & Hiff).
    assert (Hhead : hit_positions (f :: hfs) key = Z.to_nat v :: hit_positions hfs key).
    { unfold hit_positions. cbn. by rewrite Hv. }
    rewrite Hhead. cbn [check_bloom_filter]. rewrite Hv. cbn [mbind outcome_bind].
    destruct (getitem_total bf v) as (x & Hx & Hget); [lia|].
    rewrite Hget. cbn [mbind outcome_bind].
    destruct (Z.eqb_spec x 1) as [->|Hne]; cbn [negb].
    + exists b. split; [done|]. rewrite Hiff. split.
      * intros H p Hp. apply elem_of_cons in Hp as [->|Hp]; [done|by apply H].
      * intros H p Hp. apply H. by right.
    + exists false. split; [done|]. split; [done|]. intros H.
      specialize (H (Z.to_nat v) ltac:(left)). congruence.
Qed.

Lemma create_hash_functions_lookup (h N : Z) (i : nat) :
  create_hash_functions h N !! i
  = if decide (i < Z.to_nat h)%nat then Some (hash_closure N (Z.of_nat i)) else None.
Proof.
  rewrite create_hash_functions_map, list_lookup_fmap. case_decide as Hi.
  - by rewrite range_lookup.
  - rewrite lookup_ge_None_2; [done|]. rewrite range_length. lia.
Qed.

Lemma elem_of_create_hash_functions (h N : Z) (f : string -> outcome Z) :
  f ∈ create_hash_functions h N <-> exists i, 0 <= i < h /\ f = hash_closure N i.
Proof.
  rewrite create_hash_functions_map, list_elem_of_fmap. split.
  - intros (i & -> & Hi). apply elem_of_range in Hi. by exists i.
  - intros (i & Hi & ->). exists i. split; [done|]. by apply elem_of_range.
Qed.

Lemma hit_positions_create (h N : Z) (key : string) (j : nat) :
  j ∈ hit_positions (create_hash_functions h N) key
  <-> exists i v, 0 <= i < h /\ hash_closure N i key = Returned v /\ Z.to_nat v = j.
Proof.
  rewrite elem_of_hit_positions. split.
  - intros (f & v & Hf & Hv & Hj).
    apply elem_of_create_hash_functions in Hf as (i & Hi & ->). by exists i, v.
  - intros (i & v & Hi & Hv & Hj). exists (hash_closure N i), v.
    split; [|done]. apply elem_of_create_hash_functions. by exists i.
Qed.

(** X1. Adding an account a second time changes nothing: the bit array
    after the first add is returned again. *)
Theorem add_to_bloom_filter_idempotent (N h : Z) bf (key : string) :
  1 <= N -> Z.of_nat (length bf) = N ->
  exists bf1,
    add_to_bloom_filter bf (create_hash_functions h N) key = Returned bf1
    /\ add_to_bloom_filter bf1 (create_hash_functions h N) key = Returned bf1.
Proof.
  intros HN Hlen.
  pose proof (create_hash_functions_in_range h N HN) as Hfam.
  eexists. split; [by apply (add_eq_set_bits N)|].
  rewrite (add_eq_set_bits N) by (rewrite ?set_bits_length; done).
  f_equal. rewrite <- set_bits_app. apply set_bits_ext.
  intros j. rewrite elem_of_app. tauto.
Qed.

Lemma add_to_bloom_filter_idempotent_witness :
  exists bf1,
    add_to_bloom_filter [0; 1; 0; 0; 0] (create_hash_functions 3 5) "real7" = Returned bf1
    /\ add_to_bloom_filter bf1 (create_hash_functions 3 5) "real7" = Returned bf1.
Proof.
  apply (add_to_bloom_filter_idempotent 5 3 [0; 1; 0; 0; 0] "real7"); [lia|reflexivity].
Defined.

(** X2. Adding an account touches the bit array only at the positions its
    hash functions give, and only to write 1 there: the size and every other
    position are as before, whatever the array held. *)
Theorem add_to_bloom_filter_frame (N h : Z) bf (key : string) :
  1 <= N -> Z.of_nat (length bf) = N ->
  exists bf',
    add_to_bloom_filter bf (create_hash_functions h N) key = Returned bf'
    /\ length bf' = length bf
    /\ forall j : nat,
         bf' !! j = bf !! j
         \/ (bf' !! j = Some 1
             /\ exists i, 0 <= i < h
                          /\ hash_closure N i key = Returned (Z.of_nat j)).
Proof.
  intros HN Hlen.
  pose proof (create_hash_functions_in_range h N HN) as Hfam.
  eexists. split; [by apply (add_eq_set_bits N)|].
  split; [apply set_bits_length|].
  intros j. rewrite set_bits_lookup.
  destruct (decide _) as [[Hin Hlt]|Hn]; [right|by left].
  split; [done|]. apply hit_positions_create in Hin as (i & v & Hi & Hv & <-).
  exists i. split; [done|]. rewrite Hv. f_equal.
  destruct (hash_closure_in_range N i key HN) as (v' & Hv' & Hr).
  assert (v' = v) as -> by congruence. lia.
Qed.

Lemma add_to_bloom_filter_frame_witness :
  exists bf',
    add_to_bloom_filter [0; 7; 0; 1; 0] (create_hash_functions 3 5) "real7" = Returned bf'
    /\ length bf' = length [0; 7; 0; 1; 0]
    /\ forall j : nat,
         bf' !! j = [0; 7; 0; 1; 0] !! j
         \/ (bf' !! j = Some 1
             /\ exists i, 0 <= i < 3
                          /\ hash_closure 5 i "real7" = Returned (Z.of_nat j)).
Proof.
  apply (add_to_bloom_filter_frame 5 3 [0; 7; 0; 1; 0] "real7"); [lia|reflexivity].
Defined.

(** X3. [check_bloom_filter] always answers, and answers [True] exactly when
    the bit array holds 1 at the position of each of the [h] hash functions:
    one position that is not 1 gives [False]. *)
Theorem check_bloom_filter_iff (N h : Z) bf (key : string) :
  1 <= N -> Z.of_nat (length bf) = N ->
  exists b,
    check_bloom_filter bf (create_hash_functions h N) key = Returned b
    /\ (b = true
        <-> forall i, 0 <= i < h ->
              exists v, hash_closure N i key = Returned v
                        /\ bf !! Z.to_nat v = Some 1).
Proof.
  intros HN Hlen.
  pose proof (create_hash_functions_in_range h N HN) as Hfam.
  destruct (check_eq_positions N _ bf key Hfam Hlen) as (b & Hb & Hiff).
  exists b. split; [done|]. rewrite Hiff. split.
  - intros H i Hi. destruct (hash_closure_in_range N i key HN) as (v & Hv & _).
    exists v. split; [done|]. apply H. apply hit_positions_create. by exists i, v.
  - intros H p Hp. apply hit_positions_create in Hp as (i & v & Hi & Hv & <-).
    destruct (H i Hi) as (v' & Hv' & Hbit). by assert (v' = v) as -> by congruence.
Qed.

Lemma check_bloom_filter_iff_witness :
  exists b,
    check_bloom_filter [1; 0; 1; 1; 0] (create_hash_functions 2 5) "real7" = Returned b
    /\ (b = true
        <-> forall i, 0 <= i < 2 ->
              exists v, hash_closure 5 i "real7" = Returned v
                        /\ [1; 0; 1; 1; 0] !! Z.to_nat v = Some 1).
Proof.
  apply (check_bloom_filter_iff 5 2 [1; 0; 1; 1; 0] "real7"); [lia|reflexivity].
Defined.

(** X4. A fresh, all-zero bit array has no member: with at least one hash
    function every account checks [False]. *)
Theorem fresh_filter_has_no_member (N h : Z) (key : string) :
  1 <= N -> 1 <= h ->
  check_bloom_filter (repeat_list 0 N) (create_hash_functions h N) key = Returned false.
Proof.
  intros HN Hh.
  pose proof (create_hash_functions_in_range h N HN) as Hfam.
  destruct (check_eq_positions N _ (repeat_list 0 N) key Hfam) as (b & Hb & Hiff).
  { unfold repeat_list. rewrite length_replicate. lia. }
  rewrite Hb. f_equal. destruct b; [|done]. exfalso.
  destruct (hash_closure_in_range N 0 key HN) as (v & Hv & Hr).
  assert (Hbit : repeat_list 0 N !! Z.to_nat v = Some 1).
  { apply Hiff; [done|]. apply hit_positions_create. exists 0, v. split; [lia|done]. }
  unfold repeat_list in Hbit. apply lookup_replicate in Hbit as [? _]. done.
Qed.

Lemma fresh_filter_has_no_member_witness :
  check_bloom_filter (repeat_list 0 80) (create_hash_functions 2 80) "real7" = Returned false.
Proof. apply (fresh_filter_has_no_member 80 2 "real7"); lia. Defined.

(** X5. The bit array depends on which accounts were added, not on their
    order or on how often each was added: two lists with the same accounts
    give the same array. *)
Theorem add_all_same_accounts (N h : Z) bf (keys keys' : list string) :
  1 <= N -> Z.of_nat (length bf) = N ->
  (forall k, In k keys <-> In k keys') ->
  add_all bf (create_hash_functions h N) keys
  = add_all bf (create_hash_functions h N) keys'.
Proof.
  intros HN Hlen Hsame.
  pose proof (create_hash_functions_in_range h N HN) as Hfam.
  rewrite !(add_all_eq_set_bits N) by done. f_equal. apply set_bits_ext.
  intros j. rewrite !list_elem_of_bind.
  split; intros (k & Hj & Hk); exists k; (split; [done|]);
    apply list_elem_of_In; apply Hsame; by apply list_elem_of_In.
Qed.

Lemma add_all_same_accounts_witness :
  add_all (repeat_list 0 8) (create_hash_functions 2 8) ["real1"; "real2"; "real1"]
  = add_all (repeat_list 0 8) (create_hash_functions 2 8) ["real2"; "real1"].
Proof.
  apply (add_all_same_accounts 8 2 (repeat_list 0 8)
           ["real1"; "real2"; "real1"] ["real2"; "real1"]);
    [lia | reflexivity | simpl; tauto].
Defined.

(** X8. The first [h] functions of a longer family are the family of [h]:
    [create_hash_functions h' N] starts with [create_hash_functions h N]. *)
Theorem create_hash_functions_prefix (h h' N : Z) :
  h <= h' ->
  exists more,
    create_hash_functions h' N = create_hash_functions h N ++ more
    /\ length more = (Z.to_nat h' - Z.to_nat h)%nat.
Proof.
  intros Hle. exists (drop (Z.to_nat h) (create_hash_functions h' N)).
  split.
  - rewrite <- (take_drop (Z.to_nat h) (create_hash_functions h' N)) at 1.
    f_equal. apply list_eq. intros i.
    rewrite lookup_take, !create_hash_functions_lookup.
    repeat case_decide; done || lia.
  - rewrite length_drop, create_hash_functions_map, length_map, range_length. done.
Qed.

Lemma create_hash_functions_prefix_witness :
  exists more,
    create_hash_functions 5 80 = create_hash_functions 2 80 ++ more
    /\ length more = (Z.to_nat 5 - Z.to_nat 2)%nat.
Proof. apply (create_hash_functions_prefix 2 5 80). lia. Defined.

End BloomBitsFacts.

(** ** task2: the measurements of the driver *)

Section DriverFacts.
Import Task2 Task2Main BloomBits.
Implicit Types (bf : list Z) (ps : list nat).

Lemma build_eq_set_bits (k N : Z) (keys : list string) :
  1 <= N ->
  build k N keys
  = Returned (set_bits (keys ≫= hit_positions (create_hash_functions k N))
                       (repeat_list 0 N)).
Proof.
  intros HN. unfold build. apply (add_all_eq_set_bits N).
  - by apply create_hash_functions_in_range.
  - unfold repeat_list. rewrite length_replicate. lia.
Qed.

Lemma set_bits_zeros_lookup ps (N : Z) (j : nat) :
  set_bits ps (repeat_list 0 N) !! j = Some 1 <-> j ∈ ps /\ (j < Z.to_nat N)%nat.
Proof.
  rewrite set_bits_lookup. unfold repeat_list. rewrite length_replicate.
  destruct (decide _) as [H|H]; [done|]. split; [|done].
  intros Hbit. apply lookup_replicate in Hbit as [? _]. done.
Qed.

(** X6. The filter of two lists of accounts is the bitwise OR of the filters
    of each list: a bit is set in the filter built from [keys1 ++ keys2]
    exactly when it is set in the one built from [keys1] or in the one built
    from [keys2]. *)
Theorem build_union (k N : Z) (keys1 keys2 : list string) :
  1 <= N ->
  exists b1 b2 b12,
    build k N keys1 = Returned b1
    /\ build k N keys2 = Returned b2
    /\ build k N (keys1 ++ keys2) = Returned b12
    /\ forall j : nat,
         b12 !! j = Some 1 <-> b1 !! j = Some 1 \/ b2 !! j = Some 1.
Proof.
  intros HN. do 3 eexists.
  split; [by apply build_eq_set_bits|]. split; [by apply build_eq_set_bits|].
  split; [by apply build_eq_set_bits|].
  intros j. rewrite !set_bits_zeros_lookup, bind_app, elem_of_app. tauto.
Qed.

Lemma build_union_witness :
  exists b1 b2 b12,
    build 2 8 ["real1"] = Returned b1
    /\ build 2 8 ["real2"; "real3"] = Returned b2
    /\ build 2 8 (["real1"] ++ ["real2"; "real3"]) = Returned b12
    /\ forall j : nat,
         b12 !! j = Some 1 <-> b1 !! j = Some 1 \/ b2 !! j = Some 1.
Proof. apply (build_union 2 8 ["real1"] ["real2"; "real3"]). lia. Defined.

Lemma np_sum_insert bf (p : nat) :
  Forall (fun x => x = 0 \/ x = 1) bf ->
  Forall (fun x => x = 0 \/ x = 1) (<[p:=1]> bf)
  /\ np_sum (<[p:=1]> bf) <= np_sum bf + 1.
Proof.
  revert p. induction bf as [|x bf IH]; intros p Hbits.
  { rewrite list_insert_ge by (cbn; lia). split; [done|]. cbn. lia. }
  apply Forall_cons in Hbits as [Hx Hbits]. destruct p as [|p].
  - cbn. split; [apply Forall_cons; auto|]. destruct Hx; lia.
  - change (<[S p:=1]> (x :: bf)) with (x :: <[p:=1]> bf).
    destruct (IH p Hbits) as [Hbits' Hsum]. split; [by apply Forall_cons|].
    unfold np_sum in *. cbn [foldr]. lia.
Qed.

Lemma np_sum_set_bits ps bf :
  Forall (fun x => x = 0 \/ x = 1) bf ->
  Forall (fun x => x = 0 \/ x = 1) (set_bits ps bf)
  /\ np_sum (set_bits ps bf) <= np_sum bf + Z.of_nat (length ps).
Proof.
  revert bf. induction ps as [|p ps IH]; intros bf Hbits.
  { split; [done|]. change (set_bits [] bf) with bf. cbn [length]. lia. }
  rewrite set_bits_cons. destruct (np_sum_insert bf p Hbits) as [Hbits' Hsum].
  destruct (IH _ Hbits') as [Hbits'' Hsum']. split; [done|].
  cbn [length]. lia.
Qed.

Lemma np_sum_bits_bounds bf :
  Forall (fun x => x = 0 \/ x = 1) bf -> 0 <= np_sum bf <= Z.of_nat (length bf).
Proof.
  induction 1 as [|x bf Hx _ IH]; [done|]. cbn [length]. unfold np_sum in *. cbn.
  destruct Hx; lia.
Qed.

Lemma np_sum_zeros (N : Z) :
  Forall (fun x => x = 0 \/ x = 1) (repeat_list 0 N) /\ np_sum (repeat_list 0 N) = 0.
Proof.
  unfold repeat_list. induction (Z.to_nat N) as [|n [IH1 IH2]]; [done|]. cbn. split.
  - apply Forall_cons. auto.
  - unfold np_sum in *. by rewrite IH2.
Qed.

Lemma count_false_positives_bounds (N : Z) hfs bf (fakes : list string) (acc : Z) :
  family_in_range N hfs -> Z.of_nat (length bf) = N ->
  exists fp,
    for_in fakes
      (fun false_positives fake =>
         b ← check_bloom_filter bf hfs fake;
         Returned (if b : bool then false_positives + 1 else false_positives))
      acc = Returned fp
    /\ acc <= fp <= acc + Z.of_nat (length fakes).
Proof.
  intros Hfam Hlen. revert acc. induction fakes as [|fake fakes IH]; intros acc.
  - exists acc. split; [done|]. cbn. lia.
  - destruct (check_bloom_filter_total N hfs bf fake Hfam Hlen) as [b Hb].
    cbn [for_in]. rewrite Hb. cbn [mbind outcome_bind].
    destruct (IH (if b then acc + 1 else acc)) as (fp & Hfp & Hbound).
    exists fp. split; [done|]. cbn [length]. destruct b; lia.
Qed.

(** X7. One round of the driver's sweep, for any bit-array size [N >= 1],
    any number [k >= 1] of hash functions and any lists of accounts: the
    filter is built without an error, the check of all real accounts
    ("TPR==1?") is [True], the count of false positives is between 0 and
    the number of fake accounts, and the number of bits set is at most
    [N] and at most [k] per real account. *)
Theorem driver_round (k N : Z) (real_bank_accounts fake_bank_accounts : list string) :
  1 <= N -> 1 <= k ->
  exists bloom false_positives,
    build k N real_bank_accounts = Returned bloom
    /\ is_tpr_ok bloom (create_hash_functions k N) real_bank_accounts = Returned true
    /\ count_false_positives bloom (create_hash_functions k N) fake_bank_accounts
       = Returned false_positives
    /\ 0 <= false_positives <= Z.of_nat (length fake_bank_accounts)
    /\ 0 <= np_sum bloom <= Z.min N (k * Z.of_nat (length real_bank_accounts)).
Proof.
  intros HN Hk.
  pose proof (create_hash_functions_in_range k N HN) as Hfam.
  assert (Hzeros : Z.of_nat (length (repeat_list 0 N)) = N).
  { unfold repeat_list. rewrite length_replicate. lia. }
  destruct (add_all_spec N _ (repeat_list 0 N) real_bank_accounts Hfam Hzeros)
    as (bloom & Hbuild & Hlen & _ & Hset).
  assert (Hlen' : Z.of_nat (length bloom) = N) by lia.
  destruct (count_false_positives_bounds N _ bloom fake_bank_accounts 0 Hfam Hlen')
    as (fp & Hfp & Hbound).
  exists bloom, fp. split; [done|]. split; [|split; [done|split; [lia|]]].
  - assert (Hall : forall accounts,
              (forall a, a ∈ accounts -> a ∈ real_bank_accounts) ->
              is_tpr_ok bloom (create_hash_functions k N) accounts = Returned true).
    { induction accounts as [|a accounts IH]; intros Hsub; [done|].
      cbn [is_tpr_ok]. rewrite check_bloom_filter_true.
      - cbn. apply IH. intros b Hb. apply Hsub. by right.
      - intros f Hf. apply Hset; [|done]. apply Hsub. left. }
    by apply Hall.
  - pose proof Hbuild as Hbits. unfold build in Hbuild.
    change (Task2.add_all (repeat_list 0 N) (create_hash_functions k N) real_bank_accounts)
      with (build k N real_bank_accounts) in Hbits.
    rewrite build_eq_set_bits in Hbits by done. injection Hbits as <-.
    destruct (np_sum_zeros N) as [Hz0 Hz1].
    destruct (np_sum_set_bits
                (real_bank_accounts ≫= hit_positions (create_hash_functions k N))
                _ Hz0) as [Hb Hsum].
    pose proof (np_sum_bits_bounds _ Hb) as Hb'.
    rewrite set_bits_length in Hb'.
    assert (Hcount : length (real_bank_accounts
                              ≫= hit_positions (create_hash_functions k N))
                     = (length real_bank_accounts * Z.to_nat k)%nat).
    { rewrite length_bind.
      rewrite (sum_list_with_ext_in _ (fun _ => Z.to_nat k)).
      - rewrite sum_list_with_const. lia.
      - intros a _. rewrite (hit_positions_length N) by done.
        by rewrite create_hash_functions_map, length_map, range_length. }
    rewrite Hcount in Hsum. nia.
Qed.

Lemma driver_round_witness :
  exists bloom false_positives,
    build 2 16 ["real0"; "real1"] = Returned bloom
    /\ is_tpr_ok bloom (create_hash_functions 2 16) ["real0"; "real1"] = Returned true
    /\ count_false_positives bloom (create_hash_functions 2 16) ["fake0"; "fake1"]
       = Returned false_positives
    /\ 0 <= false_positives <= Z.of_nat (length ["fake0"; "fake1"])
    /\ 0 <= np_sum bloom <= Z.min 16 (2 * Z.of_nat (length ["real0"; "real1"])).
Proof. apply (driver_round 2 16 ["real0"; "real1"] ["fake0"; "fake1"]); lia. Defined.

End DriverFacts.

(** ** task1: what a sample is made of *)

Section SampleContentFacts.
Import Task1.
Context {A : Type}.
Implicit Types (xs : list A) (draws : Z -> Z) (k : Z).

(** X9. The sample holds items of the stream only. *)
Theorem reservoir_sample_from_stream draws k xs :
  valid_draws draws ->
  exists sample,
    reservoir_sampling draws k xs = Returned sample
    /\ forall x, x ∈ sample -> x ∈ xs.
Proof.
  intros Hd. destruct (reservoir_length draws k xs Hd) as (s & Hs & _).
  exists s. split; [done|].
  apply (reservoir_inv (fun _ => false) draws k xs s Hd); [|done].
  intros i j x y _ _ Hx. done.
Qed.

(** X10. A stream of at most [k] items is returned as it is, in arrival
    order, whatever the draws: no draw is made. *)
Theorem reservoir_short_stream draws k xs :
  Z.of_nat (length xs) <= k -> reservoir_sampling draws k xs = Returned xs.
Proof. apply reservoir_prefix. Qed.

(** X13. The loop never looks at the items: relabelling the stream relabels
    the sample, slot by slot. *)
Theorem reservoir_relabel {B} (f : A -> B) draws k xs :
  reservoir_sampling draws k (f <$> xs)
  = fmap (M:=list) f <$> reservoir_sampling draws k xs.
Proof. apply reservoir_fmap. Qed.

(** X14. A run depends on the draws made at the positions [k], ...,
    [n - 1] only: two draw functions that agree there give the same sample. *)
Theorem reservoir_draws_used draws1 draws2 k xs :
  (forall i, k <= i < Z.of_nat (length xs) -> draws1 i = draws2 i) ->
  reservoir_sampling draws1 k xs = reservoir_sampling draws2 k xs.
Proof. apply reservoir_ext. Qed.

(** The items that entered before position [k] are in the slot of their
    position, as long as they are in the sample. *)
Lemma reservoir_slots draws k xs (s : list (Z * A)) :
  valid_draws draws ->
  reservoir_sampling draws k (enumerate xs) = Returned s ->
  forall (j : nat) it, s !! j = Some it -> fst it < k -> fst it = Z.of_nat j.
Proof.
  intros Hd. revert s. induction xs as [|x xs IH] using rev_ind; intros s Hrun.
  - injection Hrun as <-. intros j it Hj. done.
  - rewrite enumerate_snoc, reservoir_snoc, enumerate_length in Hrun.
    destruct (reservoir_sampling draws k (enumerate xs)) as [s'|e] eqn:Hs'; [|done].
    cbn in Hrun. specialize (IH s' eq_refl).
    destruct (Z.ltb_spec (Z.of_nat (length xs)) k) as [Hlt|Hge].
    { injection Hrun as <-. intros j it Hj _.
      rewrite reservoir_prefix in Hs' by (rewrite enumerate_length; lia).
      injection Hs' as <-. rewrite <- enumerate_snoc in Hj.
      by apply enumerate_lookup in Hj as [Hj _]. }
    pose proof (Hd (Z.of_nat (length xs)) ltac:(lia)) as Hr.
    destruct (Z.ltb_spec (draws (Z.of_nat (length xs))) k) as [Hlt|Hge'].
    + apply setitem_Returned_inv in Hrun as [Hin ->]; [|lia].
      intros j it Hj Hit.
      destruct (decide (j = Z.to_nat (draws (Z.of_nat (length xs))))) as [->|Hne].
      * rewrite list_lookup_insert_eq in Hj by lia. injection Hj as <-. cbn in Hit. lia.
      * rewrite list_lookup_insert_ne in Hj by done. by apply IH.
    + injection Hrun as <-. done.
Qed.

(** X11. Sampling is without replacement: run on the stream of the items
    paired with their positions, the sample holds no position twice, and
    each pair it holds is an item of the stream at its position. *)
Theorem reservoir_positions_distinct draws k xs :
  valid_draws draws ->
  exists sample,
    reservoir_sampling draws k (enumerate xs) = Returned sample
    /\ NoDup (fst <$> sample)
    /\ forall p x, (p, x) ∈ sample -> 0 <= p /\ xs !! Z.to_nat p = Some x.
Proof.
  intros Hd. destruct (reservoir_length draws k (enumerate xs) Hd) as (s & Hs & _).
  exists s. split; [done|]. split.
  - apply NoDup_alt. intros i j p Hi Hj.
    rewrite list_lookup_fmap in Hi, Hj.
    destruct (s !! i) as [iti|] eqn:Hiti; [|done].
    destruct (s !! j) as [itj|] eqn:Hitj; [|done].
    injection Hi as Hi. injection Hj as Hj.
    assert (Hone : at_most_one (fun it : Z * A => fst it =? p) (enumerate xs)).
    { intros a b u v Ha Hb Hu Hv.
      apply enumerate_lookup in Ha as [Ha _]. apply enumerate_lookup in Hb as [Hb _].
      apply Z.eqb_eq in Hu, Hv. lia. }
    destruct (reservoir_inv _ draws k _ s Hd Hone Hs) as [Hone' _].
    apply (Hone' i j iti itj); try done; by apply Z.eqb_eq.
  - intros p x Hin.
    assert (Hsub : forall it, it ∈ s -> it ∈ enumerate xs).
    { apply (reservoir_inv (fun _ => false) draws k (enumerate xs) s Hd); [|done].
      intros i j u v _ _ Hu. done. }
    apply Hsub, list_elem_of_lookup in Hin as [i Hi].
    apply enumerate_lookup in Hi as [Hp Hx]. cbn in Hp, Hx. subst p.
    split; [lia|]. by rewrite Nat2Z.id.
Qed.

(** X12. The sample is not shuffled: an item that entered the stream before
    position [k] sits, while it is in the sample, in the slot of its own
    position. *)
Theorem reservoir_first_items_keep_slot draws k xs :
  valid_draws draws ->
  exists sample,
    reservoir_sampling draws k (enumerate xs) = Returned sample
    /\ forall (j : nat) p x, sample !! j = Some (p, x) -> p < k -> p = Z.of_nat j.
Proof.
  intros Hd. destruct (reservoir_length draws k (enumerate xs) Hd) as (s & Hs & _).
  exists s. split; [done|]. intros j p x Hj Hp.
  by apply (reservoir_slots draws k xs s Hd Hs j (p, x)).
Qed.

End SampleContentFacts.

Lemma reservoir_sample_from_stream_witness :
  exists sample,
    Task1.reservoir_sampling (fun i => Z.max 0 (i - 1)) 2 [10; 20; 30; 40] = Returned sample
    /\ forall x, x ∈ sample -> x ∈ [10; 20; 30; 40].
Proof.
  apply (reservoir_sample_from_stream (fun i => Z.max 0 (i - 1)) 2 [10; 20; 30; 40]).
  unfold Task1.valid_draws. intros index Hindex. lia.
Defined.

Lemma reservoir_short_stream_witness :
  Task1.reservoir_sampling (fun _ => 7) 5 [10; 20; 30] = Returned [10; 20; 30].
Proof. apply (reservoir_short_stream (fun _ => 7) 5 [10; 20; 30]). simpl. lia. Defined.

Lemma reservoir_draws_used_witness :
  Task1.reservoir_sampling (fun _ => 1) 2 [10; 20; 30; 40]
  = Task1.reservoir_sampling (fun i => if i <? 2 then 9 else 1) 2 [10; 20; 30; 40].
Proof.
  apply (reservoir_draws_used (fun _ => 1) (fun i => if i <? 2 then 9 else 1) 2
           [10; 20; 30; 40]).
  intros i Hi. destruct (Z.ltb_spec i 2); [lia|reflexivity].
Defined.

Lemma reservoir_positions_distinct_witness :
  exists sample,
    Task1.reservoir_sampling (fun i => Z.max 0 (i - 1)) 2 (enumerate [10; 20; 30; 40])
      = Returned sample
    /\ NoDup (fst <$> sample)
    /\ forall p x, (p, x) ∈ sample -> 0 <= p /\ [10; 20; 30; 40] !! Z.to_nat p = Some x.
Proof.
  apply (reservoir_positions_distinct (fun i => Z.max 0 (i - 1)) 2 [10; 20; 30; 40]).
  unfold Task1.valid_draws. intros index Hindex. lia.
Defined.

Lemma reservoir_first_items_keep_slot_witness :
  exists sample,
    Task1.reservoir_sampling (fun i => Z.max 0 (i - 2)) 3 (enumerate [10; 20; 30; 40; 50])
      = Returned sample
    /\ forall (j : nat) p x, sample !! j = Some (p, x) -> p < 3 -> p = Z.of_nat j.
Proof.
  apply (reservoir_first_items_keep_slot (fun i => Z.max 0 (i - 2)) 3 [10; 20; 30; 40; 50]).
  unfold Task1.valid_draws. intros index Hindex. lia.
Defined.

(** ** task3: more on the counters *)

Section CounterFacts.
Import Task3.

Lemma trailing_zeros_of_pos (p : positive) : trailing_zeros_of (Zpos p) = trailing_zero_bits p.
Proof. unfold trailing_zeros_of. by rewrite count_trailing_zeros_pos. Qed.

Lemma trailing_zeros_of_bound (x : Z) :
  0 <= x < 2 ^ 256 -> 0 <= trailing_zeros_of x <= 255.
Proof.
  intros Hx. split; [apply trailing_zeros_of_nonneg|].
  destruct x as [|p|p]; [done| |lia].
  rewrite trailing_zeros_of_pos.
  destruct (trailing_zero_bits_lowest_set p) as [Hbit _].
  destruct (Z.le_gt_cases (trailing_zero_bits p) 255) as [|Hgt]; [done|].
  rewrite Z.bits_above_log2 in Hbit; [done|lia|].
  assert (Z.log2 (Z.pos p) < 256) by (apply Z.log2_lt_pow2; lia). lia.
Qed.

Lemma max_count_bound (seed : Z) (items : list string) :
  0 <= max_count seed items <= 255.
Proof.
  induction items as [|item items IH]; [done|]. rewrite max_count_cons.
  pose proof (trailing_zeros_of_bound (hash_function item seed)
                (sha256_int_range _)). lia.
Qed.

Lemma max_count_incl (seed : Z) (items items' : list string) :
  (forall x, x ∈ items -> x ∈ items') ->
  max_count seed items <= max_count seed items'.
Proof.
  induction items as [|item items IH]; intros Hsub.
  - apply max_count_nonneg.
  - rewrite max_count_cons.
    pose proof (max_count_ge seed items' item (Hsub item ltac:(left))).
    assert (max_count seed items <= max_count seed items').
    { apply IH. intros x Hx. apply Hsub. by right. }
    lia.
Qed.

Lemma max_count_app (seed : Z) (items1 items2 : list string) :
  max_count seed (items1 ++ items2)
  = Z.max (max_count seed items1) (max_count seed items2).
Proof.
  induction items1 as [|item items1 IH].
  - pose proof (max_count_nonneg seed items2). cbn [app]. unfold max_count at 2. cbn. lia.
  - rewrite <- app_comm_cons, !max_count_cons, IH. lia.
Qed.

(** The state after adding [items] to a fresh estimator. *)
Lemma add_all_init (h : Z) (items : list string) :
  Task3.add_all (init h) items
  = Returned {| max_trailing_zeros :=
                  (fun i => max_count (Z.of_nat i) items) <$> seq 0 (Z.to_nat h) |}.
Proof.
  destruct (add_all_spec_fm items (init h)) as (fm & Hall & Hlen & Hget).
  rewrite init_length in Hlen.
  rewrite Hall. f_equal. destruct fm as [mtz]. cbn [max_trailing_zeros] in *. f_equal.
  apply list_eq. intros i. rewrite list_lookup_fmap.
  destruct (decide (i < Z.to_nat h)%nat) as [Hi|Hi].
  - rewrite lookup_seq_lt by done. cbn.
    rewrite (Hget i 0) by (by apply init_lookup || lia).
    f_equal. pose proof (max_count_nonneg (Z.of_nat i) items). lia.
  - rewrite lookup_seq_ge by lia. apply lookup_ge_None_2. lia.
Qed.

(** X15. The state of the estimator depends on which items were added, not
    on their order or on how often each was added. *)
Theorem add_all_same_items (h : Z) (items items' : list string) :
  (forall x, In x items <-> In x items') ->
  Task3.add_all (init h) items = Task3.add_all (init h) items'.
Proof.
  intros Hsame. rewrite !add_all_init. do 2 f_equal.
  apply list_fmap_ext. intros _ i _.
  apply Z.le_antisymm; apply max_count_incl; intros x Hx;
    apply list_elem_of_In, Hsame, list_elem_of_In, Hx.
Qed.

Lemma add_all_same_items_witness :
  Task3.add_all (init 4) ["element-1"; "element-2"; "element-1"]
  = Task3.add_all (init 4) ["element-2"; "element-1"].
Proof.
  apply (add_all_same_items 4 ["element-1"; "element-2"; "element-1"]
           ["element-2"; "element-1"]).
  simpl. tauto.
Defined.

(** X16. Two estimators with the same number of counters merge by the
    counter-wise maximum: the state after adding [items1 ++ items2] has, in
    each counter, the larger of the counters of the states after [items1]
    and after [items2]. *)
Theorem add_all_merge (h : Z) (items1 items2 : list string) :
  exists fm1 fm2 fm12,
    Task3.add_all (init h) items1 = Returned fm1
    /\ Task3.add_all (init h) items2 = Returned fm2
    /\ Task3.add_all (init h) (items1 ++ items2) = Returned fm12
    /\ max_trailing_zeros fm12
       = zip_with Z.max (max_trailing_zeros fm1) (max_trailing_zeros fm2).
Proof.
  do 3 eexists. rewrite !add_all_init. repeat split. cbn.
  apply list_eq. intros i. rewrite lookup_zip_with, !list_lookup_fmap.
  destruct (seq 0 (Z.to_nat h) !! i) as [j|]; [|done]. cbn.
  by rewrite max_count_app.
Qed.

(** X17. [hash_function] returns a number in [0, 2^256), and every counter
    stays in [0, 255], whatever is added. *)
Theorem counters_bounded (h : Z) (items : list string) :
  (forall item seed, 0 <= hash_function item seed < 2 ^ 256)
  /\ exists fm,
       Task3.add_all (init h) items = Returned fm
       /\ forall c, c ∈ max_trailing_zeros fm -> 0 <= c <= 255.
Proof.
  split; [intros item seed; apply sha256_int_range|].
  eexists. split; [apply add_all_init|]. cbn. intros c Hc.
  apply list_elem_of_fmap in Hc as (i & -> & _). apply max_count_bound.
Qed.

(** X20. [count_trailing_zeros] never raises, and it ignores the sign: the
    text of a negative number keeps a ["b"] after the slice, which the
    search for ["1"] never reaches. *)
Theorem count_trailing_zeros_opp (x : Z) :
  (exists c, count_trailing_zeros x = Returned c /\ 0 <= c)
  /\ count_trailing_zeros (- x) = count_trailing_zeros x.
Proof.
  split.
  - exists (trailing_zeros_of x).
    split; [apply count_trailing_zeros_total|apply trailing_zeros_of_nonneg].
  - destruct x as [|p|p]; [done|..].
    + change (- Z.pos p) with (Z.neg p).
      by rewrite count_trailing_zeros_pos, count_trailing_zeros_neg.
    + change (- Z.neg p) with (Z.pos p).
      by rewrite count_trailing_zeros_pos, count_trailing_zeros_neg.
Qed.

(** X21. Doubling a non-zero number adds one to its count, and an odd
    number has count 0. *)
Theorem count_trailing_zeros_double (x : Z) :
  x <> 0 ->
  count_trailing_zeros (2 * x) = (c ← count_trailing_zeros x; Returned (c + 1))
  /\ count_trailing_zeros (2 * x + 1) = Returned 0.
Proof.
  intros Hx. destruct x as [|p|p]; [done|..].
  - change (2 * Z.pos p) with (Z.pos p~0). change (Z.pos p~0 + 1) with (Z.pos p~1).
    by rewrite !count_trailing_zeros_pos.
  - change (2 * Z.neg p) with (Z.neg p~0).
    change (Z.neg p~0 + 1) with (Z.neg (Pos.pred_double p)).
    rewrite !count_trailing_zeros_neg. split; [done|].
    f_equal. by destruct p.
Qed.

Lemma count_trailing_zeros_double_witness :
  count_trailing_zeros (2 * 12) = (c ← count_trailing_zeros 12; Returned (c + 1))
  /\ count_trailing_zeros (2 * 12 + 1) = Returned 0.
Proof. apply (count_trailing_zeros_double 12). lia. Defined.

End CounterFacts.

(** ** The median of larger counters *)

Section MedianFacts.
Implicit Types (l s : list Z).

Lemma sorted_lookup_le s (i j : nat) (a b : Z) :
  StronglySorted Z.le s -> (i <= j)%nat ->
  s !! i = Some a -> s !! j = Some b -> a <= b.
Proof.
  intros Hs. revert i j. induction Hs as [|x s Hs IH Hall]; intros i j Hij Hi Hj; [done|].
  destruct i as [|i], j as [|j]; cbn in Hi, Hj.
  - assert (a = b) by congruence. lia.
  - injection Hi as <-. rewrite Forall_forall in Hall. apply Hall.
    by eapply list_elem_of_lookup_2.
  - lia.
  - apply (IH i j); done || lia.
Qed.

Lemma count_le_take_drop l (v : Z) (i : nat) :
  length (filter (fun x => (x <= v)%Z) l)
  = (length (filter (fun x => (x <= v)%Z) (take i l))
     + length (filter (fun x => (x <= v)%Z) (drop i l)))%nat.
Proof. by rewrite <- (take_drop i l) at 1; rewrite filter_app, length_app. Qed.

Lemma length_filter_all l (P : Z -> Prop) `{!forall x, Decision (P x)} :
  (forall x, x ∈ l -> P x) -> length (filter P l) = length l.
Proof.
  induction l as [|x l IH]; intros Hall; [done|].
  rewrite filter_cons_True by (apply Hall; left). cbn.
  rewrite IH; [done|]. intros y Hy. apply Hall. by right.
Qed.

Lemma length_filter_none l (P : Z -> Prop) `{!forall x, Decision (P x)} :
  (forall x, x ∈ l -> ~ P x) -> length (filter P l) = 0%nat.
Proof.
  induction l as [|x l IH]; intros Hnone; [done|].
  rewrite filter_cons_False by (apply Hnone; left).
  apply IH. intros y Hy. apply Hnone. by right.
Qed.

(** In a sorted list, at least [i + 1] items are at most the item at [i]. *)
Lemma sorted_count_le_ge s (i : nat) (x : Z) :
  StronglySorted Z.le s -> s !! i = Some x ->
  (i + 1 <= length (filter (fun y => (y <= x)%Z) s))%nat.
Proof.
  intros Hs Hi. rewrite (count_le_take_drop s x (S i)).
  rewrite (length_filter_all (take (S i) s)).
  - apply lookup_lt_Some in Hi. rewrite length_take. lia.
  - intros y Hy. apply list_elem_of_lookup in Hy as [j Hj].
    apply lookup_take_Some in Hj as [Hj Hlt].
    apply (sorted_lookup_le s j i y x); done || lia.
Qed.

(** In a sorted list, at most [i] items are below the item at [i]. *)
Lemma sorted_count_le_lt s (i : nat) (x v : Z) :
  StronglySorted Z.le s -> s !! i = Some x -> v < x ->
  (length (filter (fun y => (y <= v)%Z) s) <= i)%nat.
Proof.
  intros Hs Hi Hv. rewrite (count_le_take_drop s v i).
  rewrite (length_filter_none (drop i s)).
  - pose proof (length_filter (fun y => (y <= v)%Z) (take i s)).
    rewrite length_take in *. lia.
  - intros y Hy. apply list_elem_of_lookup in Hy as [j Hj].
    rewrite lookup_drop in Hj.
    pose proof (sorted_lookup_le s i (i + j) x y Hs ltac:(lia) Hi Hj). lia.
Qed.

Lemma count_le_pointwise l1 l2 (v : Z) :
  Forall2 Z.le l1 l2 ->
  (length (filter (fun y => (y <= v)%Z) l2) <= length (filter (fun y => (y <= v)%Z) l1))%nat.
Proof.
  induction 1 as [|a b l1 l2 Hab _ IH]; [done|].
  rewrite !filter_cons.
  destruct (decide (a <= v)), (decide (b <= v)); cbn [length]; lia.
Qed.

(** Sorting keeps "no smaller, item by item". *)
Lemma merge_sort_pointwise l1 l2 (i : nat) (a b : Z) :
  Forall2 Z.le l1 l2 ->
  merge_sort Z.le l1 !! i = Some a -> merge_sort Z.le l2 !! i = Some b -> a <= b.
Proof.
  intros Hle Ha Hb. destruct (Z.le_gt_cases a b) as [|Hlt]; [done|]. exfalso.
  pose proof (StronglySorted_merge_sort Z.le l1) as Hs1.
  pose proof (StronglySorted_merge_sort Z.le l2) as Hs2.
  pose proof (sorted_count_le_ge _ i b Hs2 Hb) as H2.
  pose proof (sorted_count_le_lt _ i a b Hs1 Ha ltac:(lia)) as H1.
  rewrite (Permutation_length (filter_Permutation _ _ _ (merge_sort_Permutation Z.le l1))) in H1.
  rewrite (Permutation_length (filter_Permutation _ _ _ (merge_sort_Permutation Z.le l2))) in H2.
  pose proof (count_le_pointwise l1 l2 b Hle). lia.
Qed.

(** The median of a list that is no smaller, item by item, is no smaller. *)
Lemma median_pointwise l1 l2 (m1 m2 : num) :
  Forall2 Z.le l1 l2 ->
  median l1 = Returned m1 -> median l2 = Returned m2 ->
  (to_real m1 <= to_real m2)%R
  /\ ((exists a b, m1 = Int a /\ m2 = Int b /\ a <= b)
      \/ (exists r1 r2, m1 = Float r1 /\ m2 = Float r2)).
Proof.
  intros Hle. pose proof (Forall2_length _ _ _ Hle) as Hlen.
  unfold median.
  rewrite !(Permutation_length (merge_sort_Permutation Z.le _)), <- Hlen.
  destruct (Z.of_nat (length l1) =? 0); [done|].
  unfold getitem.
  set (s1 := merge_sort Z.le l1). set (s2 := merge_sort Z.le l2).
  assert (Hs : length s1 = length l1 /\ length s2 = length l1).
  { split; unfold s1, s2; rewrite (Permutation_length (merge_sort_Permutation Z.le _)); lia. }
  destruct Hs as [-> ->].
  destruct (Z.of_nat (length l1) mod 2 =? 1).
  - destruct (norm_index _ _) as [i|]; [|done]. cbn.
    destruct (s1 !! i) as [a|] eqn:Ha; [|done].
    destruct (s2 !! i) as [b|] eqn:Hb; [|done]. cbn.
    intros [= <-] [= <-].
    pose proof (merge_sort_pointwise l1 l2 i a b Hle Ha Hb).
    split; [by apply IZR_le|]. left. by exists a, b.
  - destruct (norm_index _ (Z.of_nat (length l1) / 2 - 1)) as [i|]; [|done]. cbn.
    destruct (s1 !! i) as [a|] eqn:Ha; [|done].
    destruct (s2 !! i) as [a'|] eqn:Ha'; [|done]. cbn.
    destruct (norm_index _ (Z.of_nat (length l1) / 2)) as [j|]; [|done]. cbn.
    destruct (s1 !! j) as [b|] eqn:Hb; [|done].
    destruct (s2 !! j) as [b'|] eqn:Hb'; [|done]. cbn.
    intros [= <-] [= <-].
    pose proof (merge_sort_pointwise l1 l2 i a a' Hle Ha Ha').
    pose proof (merge_sort_pointwise l1 l2 j b b' Hle Hb Hb').
    split; [|right; by eauto]. cbn.
    assert (IZR (a + b) <= IZR (a' + b'))%R by (apply IZR_le; lia). lra.
Qed.

End MedianFacts.

(** ** task3: the estimate over time *)

Section EstimateFacts.
Import Task3.

Lemma median_range (data : list Z) (lo hi : Z) :
  data <> [] -> (forall c, c ∈ data -> lo <= c <= hi) ->
  exists m,
    median data = Returned m
    /\ (IZR lo <= to_real m <= IZR hi)%R
    /\ ((exists c, m = Int c /\ lo <= c <= hi) \/ (exists r, m = Float r)).
Proof.
  intros Hne Hall.
  destruct (Z.eq_dec (Z.of_nat (length data) mod 2) 1) as [Hodd|Hodd].
  - destruct (median_odd data Hodd) as (c & Hc & Hm).
    exists (Int c). split; [done|]. specialize (Hall c Hc). split.
    + cbn. split; apply IZR_le; lia.
    + left. by exists c.
  - destruct (median_even data Hne) as (a & b & Ha & Hb & Hm).
    { Z.div_mod_to_equations. lia. }
    eexists. split; [exact Hm|]. split; [|right; by eexists].
    pose proof (Hall a Ha). pose proof (Hall b Hb). cbn.
    assert (IZR (lo + lo) <= IZR (a + b) <= IZR (hi + hi))%R
      by (split; apply IZR_le; lia).
    rewrite !plus_IZR in *. lra.
Qed.

Lemma pow2_at_least_one (m : num) :
  (0 <= to_real m)%R ->
  (exists c, m = Int c /\ 0 <= c) \/ (exists r, m = Float r) ->
  (1 <= to_real (pow2 m))%R.
Proof.
  intros Hm [(c & -> & Hc)|(r & ->)]; cbn in *.
  - destruct (Z.leb_spec 0 c); [|lia]. cbn. apply IZR_le.
    assert (0 < 2 ^ c) by (apply Z.pow_pos_nonneg; lia). lia.
  - rewrite <- (Rpower_O 2) by lra. apply Rle_Rpower; lra.
Qed.

Lemma pow2_monotone (m1 m2 : num) :
  (exists a b, m1 = Int a /\ m2 = Int b /\ 0 <= a <= b)
  \/ (exists r1 r2, m1 = Float r1 /\ m2 = Float r2 /\ (r1 <= r2)%R) ->
  (to_real (pow2 m1) <= to_real (pow2 m2))%R.
Proof.
  intros [(a & b & -> & -> & Hab)|(r1 & r2 & -> & -> & Hr)]; cbn.
  - destruct (Z.leb_spec 0 a); [|lia]. destruct (Z.leb_spec 0 b); [|lia]. cbn.
    apply IZR_le. apply Z.pow_le_mono_r; lia.
  - apply Rle_Rpower; lra.
Qed.

Lemma init_counters_nonempty (h : Z) (items : list string) :
  1 <= h ->
  (fun i => max_count (Z.of_nat i) items) <$> seq 0 (Z.to_nat h) <> [].
Proof.
  intros Hh Hnil. apply (f_equal length) in Hnil.
  rewrite length_fmap, length_seq in Hnil. cbn in Hnil. lia.
Qed.

Lemma add_all_app (fm : FlajoletMartin) (items more : list string) :
  Task3.add_all fm (items ++ more)
  = fm1 ← Task3.add_all fm items; Task3.add_all fm1 more.
Proof. apply for_in_app. Qed.

Lemma counters_pointwise (l : list nat) (items more : list string) :
  Forall2 Z.le ((fun i => max_count (Z.of_nat i) items) <$> l)
               ((fun i => max_count (Z.of_nat i) (items ++ more)) <$> l).
Proof.
  induction l as [|i l IH]; [done|]. rewrite !fmap_cons.
  apply Forall2_cons. split; [|done]. rewrite max_count_app. lia.
Qed.

(** X18. After any adds on an estimator with [h >= 1] counters,
    [estimate_number] returns a median between 0 and 255, and an estimate
    greater than 1: it never reports zero items, not even before the first
    add. *)
Theorem estimate_number_bounds (h : Z) (items : list string) :
  1 <= h ->
  exists fm est m,
    Task3.add_all (init h) items = Returned fm
    /\ estimate_number fm = Returned (est, m)
    /\ (0 <= to_real m <= 255)%R
    /\ (1 < est)%R.
Proof.
  intros Hh. eexists.
  destruct (median_range ((fun i => max_count (Z.of_nat i) items) <$> seq 0 (Z.to_nat h)) 0 255)
    as (m & Hm & Hrange & Hkind).
  { by apply init_counters_nonempty. }
  { intros c Hc. apply list_elem_of_fmap in Hc as (i & -> & _). apply max_count_bound. }
  exists (to_real (pow2 m) / 0.75351)%R, m.
  split; [apply add_all_init|]. unfold estimate_number. cbn [max_trailing_zeros].
  rewrite Hm. cbn [mbind outcome_bind]. split; [done|]. split; [done|].
  assert (1 <= to_real (pow2 m))%R.
  { apply pow2_at_least_one; [lra|].
    destruct Hkind as [(c & -> & Hc)|?]; [left; exists c; split; [done|lia]|by right]. }
  lra.
Qed.

Lemma estimate_number_bounds_witness :
  exists fm est m,
    Task3.add_all (init 2) ["element-1"; "element-2"] = Returned fm
    /\ estimate_number fm = Returned (est, m)
    /\ (0 <= to_real m <= 255)%R
    /\ (1 < est)%R.
Proof. apply (estimate_number_bounds 2 ["element-1"; "element-2"]). lia. Defined.

(** X19. Adding items never lowers the estimate: the median and the
    estimated number after [items] and then [more] are at least those after
    [items]. *)
Theorem estimate_number_monotone (h : Z) (items more : list string) :
  1 <= h ->
  exists fm fm' est m est' m',
    Task3.add_all (init h) items = Returned fm
    /\ Task3.add_all fm more = Returned fm'
    /\ estimate_number fm = Returned (est, m)
    /\ estimate_number fm' = Returned (est', m')
    /\ (to_real m <= to_real m')%R
    /\ (est <= est')%R.
Proof.
  intros Hh.
  set (counters := fun its => (fun i => max_count (Z.of_nat i) its) <$> seq 0 (Z.to_nat h)).
  destruct (median_range (counters items) 0 255) as (m & Hm & Hr & Hk).
  { by apply init_counters_nonempty. }
  { intros c Hc. apply list_elem_of_fmap in Hc as (i & -> & _). apply max_count_bound. }
  destruct (median_range (counters (items ++ more)) 0 255) as (m' & Hm' & Hr' & Hk').
  { by apply init_counters_nonempty. }
  { intros c Hc. apply list_elem_of_fmap in Hc as (i & -> & _). apply max_count_bound. }
  assert (Hle : Forall2 Z.le (counters items) (counters (items ++ more))).
  { unfold counters. apply counters_pointwise. }
  destruct (median_pointwise _ _ m m' Hle Hm Hm') as [Hmm Hkinds].
  exists {| max_trailing_zeros := counters items |},
         {| max_trailing_zeros := counters (items ++ more) |},
         (to_real (pow2 m) / 0.75351)%R, m, (to_real (pow2 m') / 0.75351)%R, m'.
  split; [apply add_all_init|]. split.
  { pose proof (add_all_init h (items ++ more)) as Happ.
    rewrite add_all_app, add_all_init in Happ. exact Happ. }
  unfold estimate_number. cbn [max_trailing_zeros]. rewrite Hm, Hm'.
  cbn [mbind outcome_bind]. split; [done|]. split; [done|]. split; [done|].
  assert (to_real (pow2 m) <= to_real (pow2 m'))%R.
  { apply pow2_monotone.
    destruct Hkinds as [(a & b & -> & -> & Hab)|(r1 & r2 & -> & ->)].
    - left. exists a, b. repeat split; try done.
      destruct Hk as [(c & [= <-] & Hc)|(r & ?)]; [lia|done].
    - right. by exists r1, r2. }
  lra.
Qed.

Lemma estimate_number_monotone_witness :
  exists fm fm' est m est' m',
    Task3.add_all (init 3) ["element-1"] = Returned fm
    /\ Task3.add_all fm ["element-2"; "element-3"] = Returned fm'
    /\ estimate_number fm = Returned (est, m)
    /\ estimate_number fm' = Returned (est', m')
    /\ (to_real m <= to_real m')%R
    /\ (est <= est')%R.
Proof.
  apply (estimate_number_monotone 3 ["element-1"] ["element-2"; "element-3"]). lia.
Defined.

End EstimateFacts.

(** ** task1: which slot holds which item *)

Lemma count_range_eq (t : Z) (m : nat) :
  0 <= t ->
  length (filter (fun j => j = t) (range (Z.of_nat m)))
  = if decide (t < Z.of_nat m) then 1%nat else 0%nat.
Proof.
  intros Ht. induction m as [|m IH]; [case_decide; [lia|done]|].
  rewrite Nat2Z.inj_succ, <- Z.add_1_r, range_succ by lia.
  rewrite filter_app, length_app, IH, filter_cons.
  destruct (decide (Z.of_nat m = t)); repeat case_decide;
    cbn [length filter list_filter]; lia.
Qed.

Section SlotFacts.
Import Task1 Task1Slots.
Context {B : Type} (P : B -> bool) (k j : nat).
Hypothesis Hj : (j < k)%nat.
Implicit Types (ys s : list B) (ds : list Z).

(** The new item satisfies [P]: it lands in slot [j] by the one draw [j]. *)
Lemma count_new_at (c : nat) ys (y : B) ds :
  length ys = (k + c)%nat -> ds ∈ draw_sequences k c ->
  at_most_one P (ys ++ [y]) -> P y = true ->
  length (filter
    (fun ds' => holds_at P j (reservoir_sampling (draws_of k ds') (Z.of_nat k) (ys ++ [y])) = true)
    (r ← range (Z.of_nat (k + c) + 1); [ds ++ [r]])) = 1%nat.
Proof.
  intros Hlen Hds Hone HPy.
  destruct (run_sample P k c ys ds Hlen Hds (at_most_one_app_l _ _ _ Hone))
    as (s & Hs & Hsl & _ & Hsub).
  pose proof (existsb_false_sub P ys s (at_most_one_last P ys y Hone HPy) Hsub) as Hnone.
  destruct (lookup_lt_is_Some_2 s j) as [x Hx]; [lia|].
  pose proof (existsb_false_lookup P s j x Hnone Hx) as HPx.
  rewrite bind_singleton_fmap, length_filter_fmap.
  rewrite (length_filter_ext_in _ (fun r => r = Z.of_nat j)).
  - replace (Z.of_nat (k + c) + 1) with (Z.of_nat (S (k + c))) by lia.
    rewrite count_range_eq by lia. rewrite decide_True by lia. done.
  - intros r Hr. apply elem_of_range in Hr.
    rewrite (run_snoc k c) by done. rewrite Hs. cbn [mbind outcome_bind].
    destruct (Z.ltb_spec r (Z.of_nat k)) as [Hlt|Hge].
    + rewrite setitem_in_range by lia. cbn [holds_at].
      destruct (decide (j = Z.to_nat r)) as [->|Hne].
      * rewrite list_lookup_insert_eq by lia. split; [lia|done].
      * rewrite list_lookup_insert_ne by done. rewrite Hx, HPx. split; [done|lia].
    + cbn [holds_at]. rewrite Hx, HPx. split; [done|lia].
Qed.

(** The new item does not satisfy [P]: the item in slot [j] stays unless
    the draw is [j]. *)
Lemma count_old_at (c : nat) ys (y : B) ds :
  length ys = (k + c)%nat -> ds ∈ draw_sequences k c ->
  at_most_one P (ys ++ [y]) -> P y = false ->
  length (filter
    (fun ds' => holds_at P j (reservoir_sampling (draws_of k ds') (Z.of_nat k) (ys ++ [y])) = true)
    (r ← range (Z.of_nat (k + c) + 1); [ds ++ [r]]))
  = if decide (holds_at P j (reservoir_sampling (draws_of k ds) (Z.of_nat k) ys) = true)
    then (k + c)%nat else 0%nat.
Proof.
  intros Hlen Hds Hone HPy.
  destruct (run_sample P k c ys ds Hlen Hds (at_most_one_app_l _ _ _ Hone))
    as (s & Hs & Hsl & _ & _).
  destruct (lookup_lt_is_Some_2 s j) as [x Hx]; [lia|].
  rewrite bind_singleton_fmap, length_filter_fmap. rewrite Hs. cbn [holds_at]. rewrite Hx.
  assert (Hafter : forall r, 0 <= r < Z.of_nat (k + c) + 1 ->
            holds_at P j (reservoir_sampling (draws_of k (ds ++ [r])) (Z.of_nat k) (ys ++ [y])) = true
            <-> P x = true /\ r <> Z.of_nat j).
  { intros r Hr. rewrite (run_snoc k c) by done. rewrite Hs. cbn [mbind outcome_bind].
    destruct (Z.ltb_spec r (Z.of_nat k)) as [Hlt|Hge].
    - rewrite setitem_in_range by lia. cbn [holds_at].
      destruct (decide (j = Z.to_nat r)) as [->|Hne].
      + rewrite list_lookup_insert_eq by lia. rewrite HPy. split; [done|]. intros [_ ?]. lia.
      + rewrite list_lookup_insert_ne by done. rewrite Hx. split; [|tauto].
        intros ?. split; [done|lia].
    - cbn [holds_at]. rewrite Hx. split; [|tauto]. intros ?. split; [done|lia]. }
  destruct (decide (P x = true)) as [HPx|HPx].
  - rewrite (length_filter_ext_in _ (fun r => r <> Z.of_nat j)).
    + replace (Z.of_nat (k + c) + 1) with (Z.of_nat (S (k + c))) by lia.
      rewrite count_range_ne by lia. rewrite decide_True by lia. lia.
    + intros r Hr. apply elem_of_range in Hr. rewrite Hafter by done. tauto.
  - rewrite (length_filter_ext_in _ (fun _ => False)).
    + by induction (range _) as [|? ? IH].
    + intros r Hr. apply elem_of_range in Hr. rewrite Hafter by done. tauto.
Qed.

(** Of the runs over a stream of [k + c] items, in which one item that
    entered at a position from [k] on satisfies [P], one in [k + c] has that
    item in slot [j]. *)
Lemma runs_with_at_uniform (c : nat) ys :
  length ys = (k + c)%nat -> at_most_one P ys ->
  (exists (p : nat) x, (k <= p)%nat /\ ys !! p = Some x /\ P x = true) ->
  (runs_with_at P j k ys * (k + c) = length (draw_sequences k c))%nat.
Proof.
  revert ys. induction c as [|c IH]; intros ys Hlen Hone (p & x & Hp & Hx & HPx).
  - apply lookup_lt_Some in Hx. lia.
  - destruct ys as [|y ys _] using rev_ind; [cbn in Hlen; lia|].
    rewrite length_app in Hlen. cbn in Hlen.
    assert (Hlen' : length ys = (k + c)%nat) by lia.
    unfold runs_with_at. rewrite length_app. cbn [length].
    replace (length ys + 1 - k)%nat with (S c) by lia.
    rewrite draw_sequences_length.
    cbn [draw_sequences]. rewrite length_filter_bind.
    destruct (P y) eqn:HPy.
    + rewrite (sum_list_with_ext_in _ (fun _ => 1%nat))
        by (intros ds Hds; by apply (count_new_at c)).
      rewrite sum_list_with_const. lia.
    + rewrite (sum_list_with_ext_in _ _ _ (fun ds Hds => count_old_at c ys y ds Hlen' Hds Hone HPy)).
      rewrite sum_list_with_indicator.
      assert (Hin : ys !! p = Some x).
      { apply lookup_snoc_Some in Hx as [[_ Hx]|[_ Hx]]; [done|]. congruence. }
      specialize (IH ys Hlen' (at_most_one_app_l _ _ _ Hone)
                    (ex_intro _ p (ex_intro _ x (conj Hp (conj Hin HPx))))).
      unfold runs_with_at in IH. rewrite Hlen' in IH.
      replace (k + c - k)%nat with c in IH by lia.
      nia.
Qed.

End SlotFacts.

Section SlotDistribution.
Import Task1 Task1Slots.
Context {A : Type}.
Implicit Types (xs : list A).

Lemma holds_at_first_items (k : nat) xs (p j : nat) (ds : list Z) :
  (p < k)%nat -> ds ∈ draw_sequences k (length xs - k) ->
  holds_at (fun it : Z * A => fst it =? Z.of_nat p) j
    (reservoir_sampling (draws_of k ds) (Z.of_nat k) (enumerate xs)) = true
  <-> j = p
      /\ holds (fun it : Z * A => fst it =? Z.of_nat p)
           (reservoir_sampling (draws_of k ds) (Z.of_nat k) (enumerate xs)) = true.
Proof.
  intros Hp Hds. pose proof (draws_of_valid k _ ds Hds) as Hd.
  destruct (reservoir_length (draws_of k ds) (Z.of_nat k) (enumerate xs) Hd) as (s & Hs & _).
  pose proof (reservoir_slots (draws_of k ds) (Z.of_nat k) xs s Hd Hs) as Hslots.
  rewrite Hs. cbn [holds_at holds]. rewrite existsb_lookup. split.
  - destruct (s !! j) as [it|] eqn:Hit; [|done]. intros HP.
    apply Z.eqb_eq in HP as HP'.
    pose proof (Hslots j it Hit ltac:(lia)). split; [lia|]. by exists j, it.
  - intros [-> (i & it & Hi & HP)]. apply Z.eqb_eq in HP as HP'.
    pose proof (Hslots i it Hi ltac:(lia)). assert (i = p) as -> by lia.
    by rewrite Hi.
Qed.

(** X22. Where the items sit. For a stream of [n >= k] items and a slot
    [j < k], counting runs as for C2: an item that entered at a position
    [p >= k] is in slot [j] with probability [1 / n]; an item that entered
    at a position [p < k] is in its own slot [p] with probability [k / n]
    and never in another slot. *)
Theorem reservoir_slot_distribution (k : nat) xs (p j : nat) :
  (k <= length xs)%nat -> (p < length xs)%nat -> (j < k)%nat ->
  ((k <= p)%nat ->
     (runs_holding_at k xs p j * length xs
      = length (draw_sequences k (length xs - k)))%nat)
  /\ ((p < k)%nat ->
        (runs_holding_at k xs p p * length xs
         = k * length (draw_sequences k (length xs - k)))%nat
        /\ (j <> p -> runs_holding_at k xs p j = 0%nat)).
Proof.
  intros Hk Hp Hj. split.
  - intros Hkp. unfold runs_holding_at.
    pose proof (runs_with_at_uniform (fun it : Z * A => fst it =? Z.of_nat p) k j Hj
                  (length xs - k) (enumerate xs)) as H.
    rewrite enumerate_length in H.
    replace (k + (length xs - k))%nat with (length xs) in H by lia.
    apply H; [done|apply enumerate_at_most_one|].
    destruct (lookup_lt_is_Some_2 xs p Hp) as [x Hx].
    exists p, (Z.of_nat p, x). split; [done|]. split; [|apply Z.eqb_refl].
    unfold enumerate. apply lookup_zip_Some. split; [|done].
    rewrite list_lookup_fmap, lookup_seq_lt by done. done.
  - intros Hpk. split.
    + unfold runs_holding_at, runs_with_at. rewrite enumerate_length.
      rewrite (length_filter_ext_in _
                 (fun ds => holds (fun it : Z * A => fst it =? Z.of_nat p)
                              (reservoir_sampling (draws_of k ds) (Z.of_nat k) (enumerate xs))
                            = true)).
      * pose proof (runs_with_uniform (fun it : Z * A => fst it =? Z.of_nat p) k
                      (length xs - k) (enumerate xs)) as H.
        unfold runs_with in H. rewrite enumerate_length in H.
        replace (k + (length xs - k))%nat with (length xs) in H by lia.
        apply H; [done|apply enumerate_at_most_one|by apply enumerate_existsb].
      * intros ds Hds. rewrite holds_at_first_items by done. tauto.
    + intros Hne. unfold runs_holding_at, runs_with_at. rewrite enumerate_length.
      rewrite (length_filter_ext_in _ (fun _ => False)).
      * by induction (draw_sequences _ _) as [|? ? IH].
      * intros ds Hds. rewrite holds_at_first_items by done. tauto.
Qed.

End SlotDistribution.

Lemma reservoir_slot_distribution_witness :
  ((2 <= 3)%nat ->
     (Task1Slots.runs_holding_at 2 [10; 20; 30; 40] 3 1 * length [10; 20; 30; 40]
      = length (Task1.draw_sequences 2 (length [10; 20; 30; 40] - 2)))%nat)
  /\ ((3 < 2)%nat ->
        (Task1Slots.runs_holding_at 2 [10; 20; 30; 40] 3 3 * length [10; 20; 30; 40]
         = 2 * length (Task1.draw_sequences 2 (length [10; 20; 30; 40] - 2)))%nat
        /\ (1%nat <> 3%nat -> Task1Slots.runs_holding_at 2 [10; 20; 30; 40] 3 1 = 0%nat)).
Proof. apply (reservoir_slot_distribution 2 [10; 20; 30; 40] 3 1); simpl; lia. Defined.

(** Of the twelve runs over four items with [k = 2]: slot 1 holds the last
    item in three, the second item in six, the first item in none. *)
Example reservoir_slots_of_four :
  Task1Slots.runs_holding_at 2 [10; 20; 30; 40] 3 1 = 3%nat
  /\ Task1Slots.runs_holding_at 2 [10; 20; 30; 40] 1 1 = 6%nat
  /\ Task1Slots.runs_holding_at 2 [10; 20; 30; 40] 0 1 = 0%nat.
Proof. vm_compute. done. Qed.
